(** * datacsv: a CSV-file record store (src/datacsv.py)

    Shallow embedding of [CSVDatabase] and of the parts of Python's [csv]
    module and text-file layer it calls, followed by the properties of the
    store stated in the specification.

    Modelling conventions.
    - A Python [str] is a [string]; the characters that matter to the
      row format are the comma, the double quote, CR and LF.
    - A [dict] with [str] keys is a [gmap string pyval]: dict equality in
      Python ignores insertion order, and so does equality of [gmap]s.
      Keys supplied by a caller are strings; the one other key that
      occurs, the [None] under which [DictReader] files surplus fields,
      has a field of its own in [rowdict].
    - The file system is a finite map from path to text content.  Every
      operation takes the file system and returns its result together
      with the file system it leaves behind.  Text encodings are not
      modelled: a file holds the characters written to it.  Opening an
      absent file for reading fails; no other input or output fails.
    - A raised exception is a [Raise e]; [e] records the Python class and
      the raise site.
    - The [csv] module is modelled in its default ("excel") dialect, which
      is the only one the program uses: delimiter comma, quote character
      double quote, doubled quotes inside quoted fields, no escape
      character, minimal quoting, line terminator CR LF, non-strict
      reader, and the default limit on the size of a field read.  The
      behaviour is that of CPython 3.11 and later, where a NUL character
      is a character like any other.
    - A condition function is a function from a row to the value it
      returns or the exception it raises; it has no other effect. *)

From stdpp Require Import gmap strings list fin_maps.
From Stdlib Require Import Ascii String ZArith DecimalString.

Open Scope string_scope.
Open Scope list_scope.

(** ** Python values *)

Module Py.

(** The values that reach the store: [None], strings and integers. *)
Inductive pyval :=
| PyNone
| PyStr (s : string)
| PyInt (n : Z).

#[global] Instance pyval_eq_dec : EqDecision pyval.
Proof. solve_decision. Defined.

(** Truth value of an object, as [if v] / [not v] test it. *)
Definition truthy (v : pyval) : bool :=
  match v with
  | PyNone => false
  | PyStr s => negb (String.eqb s "")
  | PyInt n => negb (Z.eqb n 0)
  end.

(** [a == b]: values of different types are never equal. *)
Definition py_eq (a b : pyval) : bool :=
  match a, b with
  | PyNone, PyNone => true
  | PyStr s, PyStr t => String.eqb s t
  | PyInt n, PyInt m => Z.eqb n m
  | _, _ => false
  end.

(** [str(v)] for an integer is its decimal numeral. *)
Definition str_of_int (n : Z) : string :=
  NilZero.string_of_int (Z.to_int n).

(** Exceptions, by class and raise site.  The specification's error names
    are given where it has one. *)
Inductive exn :=
| SchemaRequired            (* ValueError, __init__           (SchemaRequiredError) *)
| RowNotDict                (* ValueError, insert             (InvalidRecordError) *)
| RowEmpty                  (* ValueError, insert             (InvalidRecordError) *)
| MissingKeys (ks : list string)
                            (* ValueError, insert             (MissingFieldsError) *)
| UnexpectedKeys            (* ValueError, insert             (UnexpectedFieldsError) *)
| FindArguments             (* ValueError, find               (InvalidArgumentError) *)
| ConditionIsNone           (* ValueError, find_where/delete_where (InvalidConditionError) *)
| ConditionEmpty            (* ValueError, find_where/_match  (EmptyConditionError) *)
| ConditionKey              (* ValueError, find_where/_match  (InvalidConditionKeyError) *)
| ConditionType             (* TypeError,  find_where/_match  (InvalidConditionTypeError) *)
| WriterExtraFields         (* ValueError, csv.DictWriter._dict_to_list *)
| FieldLimit                (* _csv.Error, field larger than field limit *)
| NewlineInField            (* _csv.Error, new-line character seen in unquoted field *)
| FileNotFound              (* FileNotFoundError, open(..., 'r') *)
| Raised (tag : string).    (* whatever a caller's condition function raises *)

#[global] Instance exn_eq_dec : EqDecision exn.
Proof. solve_decision. Defined.

Inductive pyclass := ValueError | TypeError | CsvError | OSError | OtherError.

Definition class_of (e : exn) : pyclass :=
  match e with
  | ConditionType => TypeError
  | FieldLimit | NewlineInField => CsvError
  | FileNotFound => OSError
  | Raised _ => OtherError
  | _ => ValueError
  end.

(** Outcome of a call: an exception or a value. *)
Inductive result (A : Type) :=
| Raise (e : exn)
| Return (a : A).
Arguments Raise {A} e.
Arguments Return {A} a.

#[global] Instance result_ret : MRet result := fun A a => Return a.
#[global] Instance result_bind : MBind result := fun A B f m =>
  match m with
  | Raise e => Raise e
  | Return a => f a
  end.
#[global] Instance result_fmap : FMap result := fun A B f m =>
  match m with
  | Raise e => Raise e
  | Return a => Return (f a)
  end.

End Py.
Export Py.

(** ** The csv module *)

Module Csv.

Definition DQUOTE : ascii := "034"%char.
Definition COMMA : ascii := ","%char.
Definition CR : ascii := "013"%char.
Definition LF : ascii := "010"%char.

Definition is_newline (c : ascii) : bool := Ascii.eqb c LF || Ascii.eqb c CR.

(** *** Writer ([_csv.writer], QUOTE_MINIMAL) *)

(** A character that forces the field into quotes: the delimiter, the
    quote character, or a character of the line terminator. *)
Definition special (c : ascii) : bool :=
  Ascii.eqb c COMMA || Ascii.eqb c DQUOTE || Ascii.eqb c CR || Ascii.eqb c LF.

(** [join_append_data]: copies the field, doubling each quote character,
    and tells whether the field has to be quoted. *)
Fixpoint join_append_data (field : list ascii) (quoted : bool)
  : list ascii * bool :=
  match field with
  | [] => ([], quoted)
  | c :: cs =>
      let '(out, q) := join_append_data cs (quoted || special c) in
      ((if Ascii.eqb c DQUOTE then [DQUOTE; c] else [c]) ++ out, q)
  end.

(** [join_append]: adds one field to the record buffer, after a delimiter
    when it is not the first field. *)
Definition join_append (rec : list ascii) (num_fields : nat)
    (field : list ascii) (quoted : bool) : list ascii :=
  let '(data, q) := join_append_data field quoted in
  rec ++ (if num_fields is O then [] else [COMMA])
      ++ (if q then DQUOTE :: data ++ [DQUOTE] else data).

(** The text a cell is written as: [None] is the empty field, a string is
    itself, anything else goes through [str]. *)
Definition cell_text (v : pyval) : list ascii :=
  match v with
  | PyNone => []
  | PyStr s => list_ascii_of_string s
  | PyInt n => list_ascii_of_string (str_of_int n)
  end.

Definition lineterminator : list ascii := [CR; LF].

(** [writer.writerow]: the fields joined, a lone empty field written as a
    pair of quotes, then the line terminator. *)
Definition writerow (row : list pyval) : list ascii :=
  let '(rec, n) :=
    foldl (fun '(rec, n) v => (join_append rec n (cell_text v) false, S n))
          ([], O) row in
  let rec := if negb (Nat.eqb n 0) && bool_decide (rec = [])
             then join_append [] 0 [] true else rec in
  rec ++ lineterminator.

(** *** Reader ([_csv.reader]) *)

Inductive ParserState :=
| START_RECORD
| START_FIELD
| IN_FIELD
| IN_QUOTED_FIELD
| QUOTE_IN_QUOTED_FIELD
| EAT_CRNL.
(* ESCAPED_CHAR, ESCAPE_IN_QUOTED_FIELD and AFTER_ESCAPED_CRNL are entered
   only on the escape character, which the dialect does not have. *)

#[global] Instance ParserState_eq_dec : EqDecision ParserState.
Proof. solve_decision. Defined.

(** [csv.field_size_limit()]: the module-wide cap on the length of a field
    being read; the program never changes the default. *)
Definition field_limit : N := 131072.

Record ReaderObj := mkReader {
  state : ParserState;
  fields : list (list ascii);   (* fields of the record read so far *)
  field : list ascii            (* field buffer, [field_len] characters *)
}.

Definition field_len (r : ReaderObj) : N := N.of_nat (List.length (field r)).

Definition set_state (s : ParserState) (r : ReaderObj) : ReaderObj :=
  mkReader s (fields r) (field r).

Definition parse_reset : ReaderObj := mkReader START_RECORD [] [].

Definition parse_save_field (r : ReaderObj) : ReaderObj :=
  mkReader (state r) (fields r ++ [field r]) [].

Definition parse_add_char (r : ReaderObj) (c : ascii) : result ReaderObj :=
  if (field_limit <=? field_len r)%N then Raise FieldLimit
  else Return (mkReader (state r) (fields r) (field r ++ [c])).

(** What the parser is fed: a character of the line, or the end-of-line
    mark that follows the last character of every line. *)
Inductive input := Ch (c : ascii) | EOL.

Definition at_line_end (i : input) : bool :=
  match i with Ch c => is_newline c | EOL => true end.

Definition after_line_end (i : input) : ParserState :=
  match i with EOL => START_RECORD | Ch _ => EAT_CRNL end.

Definition is_char (i : input) (d : ascii) : bool :=
  match i with Ch c => Ascii.eqb c d | EOL => false end.

(** The START_FIELD case, which START_RECORD falls through to. *)
Definition start_field (r : ReaderObj) (i : input) : result ReaderObj :=
  if at_line_end i then
    Return (set_state (after_line_end i) (parse_save_field r))
  else if is_char i DQUOTE then
    Return (set_state IN_QUOTED_FIELD r)
  else if is_char i COMMA then
    Return (parse_save_field r)
  else
    match i with
    | Ch c => set_state IN_FIELD <$> parse_add_char r c
    | EOL => Return r
    end.

(** [parse_process_char]. *)
Definition parse_process_char (r : ReaderObj) (i : input) : result ReaderObj :=
  match state r with
  | START_RECORD =>
      match i with
      | EOL => Return r
      | Ch c =>
          if is_newline c then Return (set_state EAT_CRNL r)
          else start_field (set_state START_FIELD r) i
      end
  | START_FIELD => start_field r i
  | IN_FIELD =>
      if at_line_end i then
        Return (set_state (after_line_end i) (parse_save_field r))
      else if is_char i COMMA then
        Return (set_state START_FIELD (parse_save_field r))
      else
        match i with
        | Ch c => parse_add_char r c
        | EOL => Return r
        end
  | IN_QUOTED_FIELD =>
      match i with
      | EOL => Return r
      | Ch c =>
          if Ascii.eqb c DQUOTE then Return (set_state QUOTE_IN_QUOTED_FIELD r)
          else parse_add_char r c
      end
  | QUOTE_IN_QUOTED_FIELD =>
      if is_char i DQUOTE then
        match i with
        | Ch c => set_state IN_QUOTED_FIELD <$> parse_add_char r c
        | EOL => Return r
        end
      else if is_char i COMMA then
        Return (set_state START_FIELD (parse_save_field r))
      else if at_line_end i then
        Return (set_state (after_line_end i) (parse_save_field r))
      else
        match i with
        | Ch c => set_state IN_FIELD <$> parse_add_char r c
        | EOL => Return r
        end
  | EAT_CRNL =>
      match i with
      | EOL => Return (set_state START_RECORD r)
      | Ch c => if is_newline c then Return r else Raise NewlineInField
      end
  end.

(** The characters of one line, then the end-of-line mark. *)
Fixpoint parse_chars (r : ReaderObj) (line : list ascii) : result ReaderObj :=
  match line with
  | [] => Return r
  | c :: cs => r' ← parse_process_char r (Ch c); parse_chars r' cs
  end.

Definition parse_line (r : ReaderObj) (line : list ascii) : result ReaderObj :=
  r' ← parse_chars r line; parse_process_char r' EOL.

(** An iterator that is consumed lazily: the items it yields, and the
    exception that ends it if one does. *)
Definition iterator (A : Type) : Type := list A * option exn.

Definition yield {A} (a : A) (it : iterator A) : iterator A :=
  (a :: it.1, it.2).

(** [Reader_iternext], called until the input is exhausted.  Each call
    resets the parser and feeds it lines until a record is complete; at the
    end of input inside a record the pending field is saved and the record
    returned. *)
Fixpoint reader (r : ReaderObj) (lines : list (list ascii))
  : iterator (list (list ascii)) :=
  match lines with
  | [] =>
      if negb (N.eqb (field_len r) 0) || bool_decide (state r = IN_QUOTED_FIELD)
      then ([fields (parse_save_field r)], None)
      else ([], None)
  | line :: rest =>
      match parse_line r line with
      | Raise e => ([], Some e)
      | Return r' =>
          if bool_decide (state r' = START_RECORD)
          then yield (fields r') (reader parse_reset rest)
          else reader r' rest
      end
  end.

(** Iterating a text file opened with [newline='']: a line ends after LF,
    after CR LF, or after a CR that no LF follows; the line keeps its
    ending.  [cur] is the part of the current line already seen. *)
Fixpoint readlines_from (cur : list ascii) (text : list ascii)
  : list (list ascii) :=
  match text with
  | [] => if cur is [] then [] else [cur]
  | c :: text' =>
      if Ascii.eqb c LF then (cur ++ [c]) :: readlines_from [] text'
      else if Ascii.eqb c CR then
        match text' with
        | c' :: text'' =>
            if Ascii.eqb c' LF
            then (cur ++ [c; c']) :: readlines_from [] text''
            else (cur ++ [c]) :: readlines_from [] text'
        | [] => [cur ++ [c]]
        end
      else readlines_from (cur ++ [c]) text'
  end.

Definition readlines (text : string) : list (list ascii) :=
  readlines_from [] (list_ascii_of_string text).

End Csv.
Export Csv.

(** ** Dictionaries, [csv.DictReader] and [csv.DictWriter] *)

Abbreviation pydict := (gmap string pyval).

(** A row as [DictReader] yields it: the entries under the field names,
    and the entry it stores under the key [None] (its default [restkey])
    when a line has more fields than the header. *)
Record rowdict := RowDict {
  items : pydict;
  restkey : option (list string)
}.

#[global] Instance rowdict_eq_dec : EqDecision rowdict.
Proof. solve_decision. Defined.

(** An argument whose type the callee inspects. *)
Inductive pyobj :=
| Dict (d : pydict)
| Callable (f : rowdict -> result pyval)
| Value (v : pyval).

(** [d.get(key)] and [d.get(key, dflt)]. *)
Definition get (d : pydict) (key : string) : pyval := default PyNone (d !! key).
Definition get_or (d : pydict) (key : string) (dflt : pyval) : pyval :=
  default dflt (d !! key).

(** [list(d)]: the keys of a dictionary. *)
Definition keys (d : pydict) : list string := (map_to_list d).*1.

(** [dict(pairs)]: a later pair overrides an earlier one with its key. *)
Definition dict_of (pairs : list (string * pyval)) : pydict :=
  foldl (fun d kv => <[kv.1 := kv.2]> d) ∅ pairs.

(** [DictReader.__next__] on one non-blank record of the reader. *)
Definition DictReader_row (fieldnames row : list string) : rowdict :=
  let d := dict_of (zip fieldnames (map PyStr row)) in
  let lf := List.length fieldnames in
  let lr := List.length row in
  if Nat.ltb lf lr then RowDict d (Some (drop lf row))
  else RowDict (foldl (fun d key => <[key := PyNone]> d) d (drop lr fieldnames))
               None.

(** [csv.DictReader(f)] as an iterator: the first record is the header,
    blank records are skipped. *)
Definition DictReader (text : string) : iterator rowdict :=
  let '(recs, e) := reader parse_reset (readlines text) in
  match map (map string_of_list_ascii) recs with
  | [] => ([], e)
  | fieldnames :: rows =>
      (map (DictReader_row fieldnames) (filter (fun row => row ≠ []) rows), e)
  end.

(** [DictWriter._dict_to_list] with [extrasaction='raise'] and
    [restval='']. *)
Definition _dict_to_list (fieldnames : list string) (rowdict : rowdict)
  : result (list pyval) :=
  let wrong_fields := filter (fun key => key ∉ fieldnames) (keys (items rowdict)) in
  if bool_decide (wrong_fields = [] ∧ restkey rowdict = None)
  then Return (map (fun key => get_or (items rowdict) key (PyStr "")) fieldnames)
  else Raise WriterExtraFields.

Definition DictWriter_writerow (fieldnames : list string) (rowdict : rowdict)
  : result (list ascii) :=
  writerow <$> _dict_to_list fieldnames rowdict.

Definition DictWriter_writeheader (fieldnames : list string)
  : result (list ascii) :=
  DictWriter_writerow fieldnames
    (RowDict (dict_of (zip fieldnames (map PyStr fieldnames))) None).

(** [DictWriter.writerows]: rows are written one by one to [out]; a row
    that is refused ends the call, with the rows before it written. *)
Fixpoint DictWriter_writerows (fieldnames : list string) (rows : list rowdict)
    (out : list ascii) : list ascii * option exn :=
  match rows with
  | [] => (out, None)
  | row :: rows' =>
      match DictWriter_writerow fieldnames row with
      | Raise e => (out, Some e)
      | Return line => DictWriter_writerows fieldnames rows' (out ++ line)
      end
  end.

(** ** The loop over a lazy iterator *)

Fixpoint for_each {A S : Type} (body : S -> A -> result S) (s : S)
    (l : list A) : result S :=
  match l with
  | [] => Return s
  | a :: l' => s' ← body s a; for_each body s' l'
  end.

(** [for a in it: body]: the body runs on each item as it is produced;
    the iterator's own exception comes after the items before it. *)
Definition for_in {A S : Type} (it : iterator A) (body : S -> A -> result S)
    (s : S) : result S :=
  s' ← for_each body s it.1;
  match it.2 with
  | Some e => Raise e
  | None => Return s'
  end.

(** ** The store *)

Abbreviation filesystem := (gmap string string).

Module CSVDatabase.

Record self := Self {
  db_name : string;
  headers : list string
}.

Definition endswith (s suffix : string) : bool :=
  let n := String.length s in
  let m := String.length suffix in
  Nat.leb m n && String.eqb (substring (n - m) m s) suffix.

(** [open(path, 'r')]. *)
Definition open_read (path : string) (fs : filesystem) : result string :=
  match fs !! path with
  | Some text => Return text
  | None => Raise FileNotFound
  end.

(** The rewrite block of [update], [delete] and [delete_where]:
    [open(path, 'w')] empties the file, then the header and the rows are
    written; what was written before an exception stays in the file. *)
Definition rewrite (me : self) (rows : list rowdict) (fs : filesystem)
  : result unit * filesystem :=
  match DictWriter_writeheader (headers me) with
  | Raise e => (Raise e, <[db_name me := ""]> fs)
  | Return header =>
      let '(out, e) := DictWriter_writerows (headers me) rows header in
      (match e with Some e => Raise e | None => Return () end,
       <[db_name me := string_of_list_ascii out]> fs)
  end.

Definition __init__ (db_name : string) (fields : list string)
    (fs : filesystem) : result self * filesystem :=
  let db_name := if endswith db_name ".csv" then db_name
                 else (db_name +:+ ".csv") in
  let me := Self db_name fields in
  match fs !! db_name with
  | Some _ => (Return me, fs)
  | None =>
      match fields with
      | [] => (Raise SchemaRequired, fs)
      | _ =>
          match DictWriter_writeheader fields with
          | Raise e => (Raise e, <[db_name := ""]> fs)
          | Return header =>
              (Return me, <[db_name := string_of_list_ascii header]> fs)
          end
      end
  end.

(** The row after the fill-or-check step of [insert]. *)
Definition fill_or_check (me : self) (row : pydict) (fill_missing : bool)
  : result pydict :=
  if fill_missing then
    Return (dict_of (map (fun key => (key, get_or row key (PyStr ""))) (headers me)))
  else
    let missing_keys := filter (fun key => row !! key = None) (headers me) in
    if bool_decide (missing_keys = []) then Return row
    else Raise (MissingKeys missing_keys).

Definition insert (me : self) (row : pyobj) (fill_missing : bool)
    (fs : filesystem) : result bool * filesystem :=
  match row with
  | Dict row =>
      if bool_decide (row = ∅) then (Raise RowEmpty, fs)
      else
        match fill_or_check me row fill_missing with
        | Raise e => (Raise e, fs)
        | Return row =>
            let extra_keys := filter (fun key => key ∉ headers me) (keys row) in
            if bool_decide (extra_keys = []) then
              (* open(..., 'a'): the file is created if it is absent *)
              let old := default "" (fs !! db_name me) in
              match DictWriter_writerow (headers me) (RowDict row None) with
              | Raise e => (Raise e, <[db_name me := old]> fs)
              | Return line =>
                  (Return true,
                   <[db_name me := old +:+ string_of_list_ascii line]> fs)
              end
            else (Raise UnexpectedKeys, fs)
        end
  | _ => (Raise RowNotDict, fs)
  end.

Definition find_all (me : self) (fs : filesystem)
  : result (list rowdict) * filesystem :=
  (f ← open_read (db_name me) fs;
   for_in (DictReader f) (fun acc row => Return (acc ++ [row])) [],
   fs).

Definition find (me : self) (key : string) (value : pyval) (fs : filesystem)
  : result (list rowdict) * filesystem :=
  if negb (truthy (PyStr key)) || negb (truthy value)
  then (Raise FindArguments, fs)
  else
    (f ← open_read (db_name me) fs;
     for_in (DictReader f)
       (fun acc row =>
          Return (if py_eq (get (items row) key) value then acc ++ [row] else acc))
       [],
     fs).

(** [all(row.get(k) == v for k, v in condition.items())]. *)
Definition all_equal (row : rowdict) (condition : pydict) : bool :=
  forallb (fun kv => py_eq (get (items row) kv.1) kv.2) (map_to_list condition).

(** The checks [find_where] and [_match] make on a dictionary condition. *)
Definition check_condition (me : self) (condition : pydict) : result unit :=
  if bool_decide (condition = ∅) then Raise ConditionEmpty
  else if forallb (fun key => bool_decide (key ∈ headers me)) (keys condition)
  then Return ()
  else Raise ConditionKey.

Definition find_where (me : self) (condition : pyobj) (fs : filesystem)
  : result (list rowdict) * filesystem :=
  match condition with
  | Value PyNone => (Raise ConditionIsNone, fs)
  | _ =>
      (f ← open_read (db_name me) fs;
       let reader := DictReader f in
       match condition with
       | Callable condition =>
           for_in reader
             (fun acc row =>
                keep ← condition row;
                Return (if truthy keep then acc ++ [row] else acc))
             []
       | Dict condition =>
           _ ← check_condition me condition;
           for_in reader
             (fun acc row =>
                Return (if all_equal row condition then acc ++ [row] else acc))
             []
       | Value _ => Raise ConditionType
       end,
       fs)
  end.

(** [_match]; the result is the truth value its callers test. *)
Definition _match (me : self) (row : rowdict) (condition : pyobj)
  : result bool :=
  match condition with
  | Callable condition => truthy <$> condition row
  | Dict condition =>
      _ ← check_condition me condition;
      Return (all_equal row condition)
  | Value _ => Raise ConditionType
  end.

(** The read loop of the delete operations: whether a row was dropped,
    and the rows kept. *)
Definition drop_matching (matches : rowdict -> result bool)
    (acc : bool * list rowdict) (row : rowdict) : result (bool * list rowdict) :=
  hit ← matches row;
  Return (if hit : bool then (true, acc.2) else (acc.1, acc.2 ++ [row])).

(** What follows the read loop in [update], [delete] and [delete_where]. *)
Definition finish (me : self) (read : result (bool * list rowdict))
    (fs : filesystem) : result bool * filesystem :=
  match read with
  | Raise e => (Raise e, fs)
  | Return (changed, rows) =>
      if changed then
        let '(w, fs') := rewrite me rows fs in
        (_ ← w; Return changed, fs')
      else (Return changed, fs)
  end.

Definition delete_where (me : self) (condition : pyobj) (fs : filesystem)
  : result bool * filesystem :=
  match condition with
  | Value PyNone => (Raise ConditionIsNone, fs)
  | _ =>
      finish me
        (f ← open_read (db_name me) fs;
         for_in (DictReader f)
           (drop_matching (fun row => _match me row condition)) (false, []))
        fs
  end.

Definition update (me : self) (key : string) (value : pyval)
    (new_data : pydict) (fs : filesystem) : result bool * filesystem :=
  finish me
    (f ← open_read (db_name me) fs;
     for_in (DictReader f)
       (fun acc row =>
          Return (if py_eq (get (items row) key) value
                  then (true, acc.2 ++ [RowDict (new_data ∪ items row) (restkey row)])
                  else (acc.1, acc.2 ++ [row])))
       (false, []))
    fs.

Definition delete (me : self) (key : string) (value : pyval)
    (fs : filesystem) : result bool * filesystem :=
  finish me
    (f ← open_read (db_name me) fs;
     for_in (DictReader f)
       (drop_matching (fun row => Return (py_eq (get (items row) key) value)))
       (false, []))
    fs.

Definition delete_db (me : self) (fs : filesystem) : bool * filesystem :=
  match fs !! db_name me with
  | Some _ => (true, base.delete (db_name me) fs)
  | None => (false, fs)
  end.

End CSVDatabase.

(** * Properties of the csv layer *)

Module CsvFacts.

(** ** The reader as one pass over the text

    [scan] feeds the parser the characters of the text and the end-of-line
    mark wherever a line of the file ends; [pending] tells whether the
    current line has characters already.  It computes what [reader] does on
    the lines of the text. *)

Definition ends_line (c : ascii) (next : list ascii) : bool :=
  Ascii.eqb c LF
  || (Ascii.eqb c CR && negb (if next is c' :: _ then Ascii.eqb c' LF else false)).

Definition at_eol (r : ReaderObj) (k : ReaderObj -> iterator (list (list ascii)))
  : iterator (list (list ascii)) :=
  match parse_process_char r EOL with
  | Raise e => ([], Some e)
  | Return r' =>
      if bool_decide (state r' = START_RECORD)
      then yield (fields r') (k parse_reset)
      else k r'
  end.

Fixpoint scan (r : ReaderObj) (pending : bool) (text : list ascii)
  : iterator (list (list ascii)) :=
  match text with
  | [] => if pending then at_eol r (fun r' => reader r' []) else reader r []
  | c :: text' =>
      match parse_process_char r (Ch c) with
      | Raise e => ([], Some e)
      | Return r1 =>
          if ends_line c text'
          then at_eol r1 (fun r2 => scan r2 false text')
          else scan r1 true text'
      end
  end.

Lemma parse_chars_app r l1 l2 :
  parse_chars r (l1 ++ l2) = r' ← parse_chars r l1; parse_chars r' l2.
Proof.
  revert r; induction l1 as [|c l1 IH]; intros r; simpl; [done|].
  destruct (parse_process_char r (Ch c)) as [e|r1]; simpl; [done|apply IH].
Qed.

Lemma reader_cons r line rest :
  reader r (line :: rest) =
  match parse_chars r line with
  | Raise e => ([], Some e)
  | Return r1 => at_eol r1 (fun r2 => reader r2 rest)
  end.
Proof.
  simpl. unfold parse_line, at_eol.
  destruct (parse_chars r line) as [e|r1]; simpl; [done|].
  by destruct (parse_process_char r1 EOL).
Qed.

Lemma at_eol_ext r k1 k2 :
  (forall r', k1 r' = k2 r') -> at_eol r k1 = at_eol r k2.
Proof.
  intros H. unfold at_eol. destruct (parse_process_char r EOL); [done|].
  by rewrite !H.
Qed.

(** A line in progress fails as soon as one of its characters does. *)
Lemma reader_readlines_raise text : forall r cur e,
  parse_chars r cur = Raise e ->
  cur ≠ [] ->
  reader r (readlines_from cur text) = ([], Some e).
Proof.
  induction text as [|c text IH]; intros r cur e Hcur Hne.
  - destruct cur; [done|]. cbn [readlines_from]. by rewrite reader_cons, Hcur.
  - assert (Hext : forall l, parse_chars r (cur ++ l) = Raise e).
    { intros l. by rewrite parse_chars_app, Hcur. }
    cbn [readlines_from].
    destruct (Ascii.eqb c LF).
    { by rewrite reader_cons, Hext. }
    destruct (Ascii.eqb c CR).
    { destruct text as [|c' text'']; [by rewrite reader_cons, Hext|].
      destruct (Ascii.eqb c' LF); by rewrite reader_cons, Hext. }
    apply IH; [apply Hext|]. by destruct cur.
Qed.

Lemma pending_flag (cur : list ascii) :
  negb (bool_decide (cur = [])) = if cur is [] then false else true.
Proof. by destruct cur. Qed.

Lemma reader_readlines_scan n : forall text r cur r1,
  List.length text <= n ->
  parse_chars r cur = Return r1 ->
  reader r (readlines_from cur text)
  = scan r1 (negb (bool_decide (cur = []))) text.
Proof.
  induction n as [|n IH]; intros text r cur r1 Hlen Hcur;
    rewrite pending_flag.
  { destruct text; [|simpl in Hlen; lia].
    cbn [readlines_from scan].
    destruct cur as [|c0 cur].
    - simpl in Hcur. by inversion Hcur.
    - by rewrite reader_cons, Hcur. }
  destruct text as [|c text].
  { cbn [readlines_from scan]. destruct cur as [|c0 cur].
    - simpl in Hcur. by inversion Hcur.
    - by rewrite reader_cons, Hcur. }
  simpl in Hlen.
  assert (Hstep : forall l, parse_chars r (cur ++ l) = parse_chars r1 l).
  { intros l. by rewrite parse_chars_app, Hcur. }
  cbn [readlines_from scan]. unfold ends_line.
  destruct (Ascii.eqb c LF) eqn:HLF.
  { rewrite reader_cons, Hstep. cbn [parse_chars mbind result_bind orb].
    destruct (parse_process_char r1 (Ch c)) as [e|r2]; [done|].
    apply at_eol_ext. intros r'. rewrite (IH text r' [] r'); [done|lia|done]. }
  destruct (Ascii.eqb c CR) eqn:HCR.
  { destruct text as [|c' text''].
    - rewrite reader_cons, Hstep. cbn [parse_chars mbind result_bind orb andb negb].
      destruct (parse_process_char r1 (Ch c)) as [e|r2]; [done|].
      by apply at_eol_ext.
    - destruct (Ascii.eqb c' LF) eqn:HLF'.
      + rewrite reader_cons, Hstep.
        cbn [parse_chars mbind result_bind orb andb negb].
        destruct (parse_process_char r1 (Ch c)) as [e|r2]; [done|].
        cbn [scan mbind result_bind]. unfold ends_line. rewrite HLF'. cbn [orb].
        destruct (parse_process_char r2 (Ch c')) as [e|r3]; [done|].
        apply at_eol_ext. intros r'.
        rewrite (IH text'' r' [] r'); [done|simpl in Hlen; lia|done].
      + rewrite reader_cons, Hstep.
        cbn [parse_chars mbind result_bind orb andb negb].
        destruct (parse_process_char r1 (Ch c)) as [e|r2]; [done|].
        apply at_eol_ext. intros r'.
        rewrite (IH (c' :: text'') r' [] r'); [done|simpl in *; lia|done]. }
  cbn [orb andb].
  destruct (parse_process_char r1 (Ch c)) as [e|r2] eqn:Hc.
  { apply reader_readlines_raise; [|by destruct cur].
    rewrite parse_chars_app, Hcur. simpl. by rewrite Hc. }
  rewrite (IH text r (cur ++ [c]) r2); [|lia|].
  - by destruct cur.
  - rewrite parse_chars_app, Hcur. simpl. by rewrite Hc.
Qed.

(** Reading the lines of a text is scanning it. *)
Lemma reader_scan text :
  reader parse_reset (readlines_from [] text) = scan parse_reset false text.
Proof. by apply (reader_readlines_scan (List.length text)). Qed.

(** ** What the writer produces *)

Definition quote_data (s : list ascii) : list ascii :=
  flat_map (fun c => if Ascii.eqb c DQUOTE then [DQUOTE; c] else [c]) s.

Definition needs_quotes (s : list ascii) : bool := existsb special s.

Definition field_text (s : list ascii) : list ascii :=
  if needs_quotes s then DQUOTE :: quote_data s ++ [DQUOTE] else s.

Definition more_fields (cells : list (list ascii)) : list ascii :=
  flat_map (fun s => COMMA :: field_text s) cells.

Definition record_text (cells : list (list ascii)) : list ascii :=
  match cells with
  | [] => []
  | [ [] ] => [DQUOTE; DQUOTE]
  | s :: cells' => field_text s ++ more_fields cells'
  end.

Lemma join_append_data_spec s q :
  join_append_data s q = (quote_data s, q || needs_quotes s).
Proof.
  revert q; induction s as [|c s IH]; intros q; simpl.
  - by rewrite orb_false_r.
  - rewrite IH. by rewrite orb_assoc.
Qed.

Lemma special_DQUOTE c : special c = false -> Ascii.eqb c DQUOTE = false.
Proof. unfold special. by destruct (Ascii.eqb c COMMA), (Ascii.eqb c DQUOTE). Qed.

Lemma quote_data_plain s : needs_quotes s = false -> quote_data s = s.
Proof.
  induction s as [|c s IH]; [done|]. simpl.
  intros [Hc Hs]%orb_false_elim. by rewrite (special_DQUOTE c Hc), IH.
Qed.

Lemma join_append_spec rec n s :
  join_append rec n s false
  = rec ++ (if n is O then [] else [COMMA]) ++ field_text s.
Proof.
  unfold join_append, field_text. rewrite join_append_data_spec. simpl.
  destruct (needs_quotes s) eqn:Hq; [done|]. by rewrite quote_data_plain.
Qed.

Lemma writerow_fold row : forall rec n,
  foldl (fun '(rec, n) v => (join_append rec n (cell_text v) false, S n))
        (rec, S n) row
  = (rec ++ more_fields (map cell_text row), S n + List.length row).
Proof.
  induction row as [|v row IH]; intros rec n; simpl.
  - rewrite app_nil_r. f_equal. lia.
  - rewrite join_append_spec, IH. f_equal.
    + by rewrite <- !app_assoc.
    + lia.
Qed.

Lemma field_text_nil s : field_text s = [] -> s = [].
Proof. unfold field_text. by destruct (needs_quotes s). Qed.

Lemma writerow_spec row :
  writerow row = record_text (map cell_text row) ++ lineterminator.
Proof.
  unfold writerow. destruct row as [|v row]; [done|].
  cbn [foldl]. rewrite join_append_spec, writerow_fold. cbn [app].
  f_equal. cbn [negb Nat.eqb plus andb map record_text].
  case_bool_decide as Hnil.
  - apply app_eq_nil in Hnil as [Hs Hm].
    apply field_text_nil in Hs. rewrite Hs.
    destruct row; [|done]. unfold join_append. by simpl.
  - destruct (cell_text v) eqn:Hv; [|done].
    destruct row; [|done]. simpl in Hnil. done.
Qed.

(** ** Scanning what the writer produced *)

Definition fits (s : list ascii) : Prop :=
  (N.of_nat (List.length s) <= field_limit)%N.

Lemma parse_add_char_ok st fs f c :
  (N.of_nat (List.length f) < field_limit)%N ->
  parse_add_char (mkReader st fs f) c = Return (mkReader st fs (f ++ [c])).
Proof.
  intros H. unfold parse_add_char, field_len. cbn [field fields state].
  by rewrite (proj2 (N.leb_gt _ _) H).
Qed.

Lemma special_newline c : special c = false -> is_newline c = false.
Proof.
  unfold special, is_newline.
  by destruct (Ascii.eqb c COMMA), (Ascii.eqb c DQUOTE), (Ascii.eqb c CR),
    (Ascii.eqb c LF).
Qed.

Lemma special_COMMA c : special c = false -> Ascii.eqb c COMMA = false.
Proof. unfold special. by destruct (Ascii.eqb c COMMA). Qed.

Lemma ends_line_plain c next : is_newline c = false -> ends_line c next = false.
Proof.
  unfold is_newline, ends_line. by destruct (Ascii.eqb c LF), (Ascii.eqb c CR).
Qed.

(** Inside quotes the end of a line changes nothing. *)
Lemma at_eol_in_quotes fs f k :
  at_eol (mkReader IN_QUOTED_FIELD fs f) k = k (mkReader IN_QUOTED_FIELD fs f).
Proof. done. Qed.

Lemma scan_quoted_data s : forall fs f p rest,
  (N.of_nat (List.length f + List.length s) <= field_limit)%N ->
  exists p',
    scan (mkReader IN_QUOTED_FIELD fs f) p (quote_data s ++ rest)
    = scan (mkReader IN_QUOTED_FIELD fs (f ++ s)) p' rest.
Proof.
  induction s as [|c s IH]; intros fs f p rest Hfit.
  { exists p. by rewrite app_nil_r. }
  simpl in Hfit.
  assert (Hlt : (N.of_nat (List.length f) < field_limit)%N) by lia.
  assert (Hfit' : (N.of_nat (List.length (f ++ [c]) + List.length s)
                   <= field_limit)%N).
  { rewrite length_app. simpl. lia. }
  destruct (IH fs (f ++ [c]) true rest Hfit') as [p1 H1].
  destruct (IH fs (f ++ [c]) false rest Hfit') as [p2 H2].
  rewrite <- app_assoc in H1, H2. simpl in H1, H2.
  unfold quote_data. cbn [flat_map]. fold (quote_data s).
  destruct (Ascii.eqb c DQUOTE) eqn:HDQ.
  - apply Ascii.eqb_eq in HDQ as ->.
    exists p1. rewrite <- H1. cbn [app scan].
    cbn [parse_process_char state]. rewrite Ascii.eqb_refl.
    cbn [ends_line Ascii.eqb DQUOTE LF CR orb andb].
    change (scan (set_state QUOTE_IN_QUOTED_FIELD (mkReader IN_QUOTED_FIELD fs f))
              true (DQUOTE :: quote_data s ++ rest)
            = scan (mkReader IN_QUOTED_FIELD fs (f ++ [DQUOTE])) true
                (quote_data s ++ rest)).
    unfold set_state. cbn [scan parse_process_char state fields field is_char].
    rewrite Ascii.eqb_refl. rewrite parse_add_char_ok by done.
    done.
  - cbn [app scan parse_process_char state]. rewrite HDQ.
    rewrite parse_add_char_ok by done.
    destruct (ends_line c (quote_data s ++ rest)).
    + exists p2. by rewrite at_eol_in_quotes.
    + by exists p1.
Qed.

Lemma scan_plain_data s : forall fs f p rest,
  needs_quotes s = false ->
  (N.of_nat (List.length f + List.length s) <= field_limit)%N ->
  exists p',
    scan (mkReader IN_FIELD fs f) p (s ++ rest)
    = scan (mkReader IN_FIELD fs (f ++ s)) p' rest.
Proof.
  induction s as [|c s IH]; intros fs f p rest Hq Hfit.
  { exists p. by rewrite app_nil_r. }
  simpl in Hfit, Hq. apply orb_false_elim in Hq as [Hc Hs].
  assert (Hlt : (N.of_nat (List.length f) < field_limit)%N) by lia.
  destruct (IH fs (f ++ [c]) true rest Hs) as [p1 H1].
  { rewrite length_app. simpl. lia. }
  rewrite <- app_assoc in H1. simpl in H1.
  exists p1. rewrite <- H1. cbn [app scan parse_process_char state at_line_end].
  rewrite (special_newline c Hc). cbn [is_char]. rewrite (special_COMMA c Hc).
  rewrite parse_add_char_ok by done.
  by rewrite ends_line_plain by by apply special_newline.
Qed.

(** The parser after the text of one field, before the character that
    ends the field. *)
Inductive field_read (st : ParserState) (fs : list (list ascii))
    (s : list ascii) : ReaderObj -> Prop :=
| field_read_empty : s = [] -> field_read st fs s (mkReader st fs [])
| field_read_plain : s ≠ [] -> field_read st fs s (mkReader IN_FIELD fs s)
| field_read_quoted : field_read st fs s (mkReader QUOTE_IN_QUOTED_FIELD fs s).

Definition field_start (st : ParserState) : Prop :=
  st = START_RECORD ∨ st = START_FIELD.

Lemma scan_open_quote st fs p rest :
  field_start st ->
  scan (mkReader st fs []) p (DQUOTE :: rest)
  = scan (mkReader IN_QUOTED_FIELD fs []) true rest.
Proof. by intros [-> | ->]. Qed.

Lemma scan_close_quote fs f p rest :
  scan (mkReader IN_QUOTED_FIELD fs f) p (DQUOTE :: rest)
  = scan (mkReader QUOTE_IN_QUOTED_FIELD fs f) true rest.
Proof. done. Qed.

Lemma scan_first_plain st fs c p rest :
  field_start st ->
  special c = false ->
  scan (mkReader st fs []) p (c :: rest)
  = scan (mkReader IN_FIELD fs [c]) true rest.
Proof.
  intros Hst Hc.
  pose proof (special_newline c Hc) as Hnl.
  pose proof (special_COMMA c Hc) as Hco.
  pose proof (special_DQUOTE c Hc) as Hdq.
  destruct Hst as [-> | ->];
    cbn [scan parse_process_char state]; rewrite ?Hnl;
    unfold start_field, set_state; cbn [is_char at_line_end state fields field];
    rewrite ?Hnl, Hdq, Hco; cbn [fmap result_fmap];
    (rewrite parse_add_char_ok by done);
    by rewrite ends_line_plain.
Qed.

Lemma scan_field_text st fs s p rest :
  field_start st ->
  fits s ->
  exists p' r,
    field_read st fs s r ∧
    scan (mkReader st fs []) p (field_text s ++ rest) = scan r p' rest.
Proof.
  intros Hst Hfit. unfold field_text.
  destruct (needs_quotes s) eqn:Hq.
  - destruct (scan_quoted_data s fs [] true (DQUOTE :: rest)) as [p1 H1].
    { by simpl. }
    exists true, (mkReader QUOTE_IN_QUOTED_FIELD fs s). split; [constructor|].
    cbn [app]. rewrite scan_open_quote by done.
    rewrite <- app_assoc. cbn [app]. rewrite H1.
    by rewrite scan_close_quote.
  - destruct s as [|c s].
    { exists p, (mkReader st fs []). split; [by constructor|done]. }
    simpl in Hq. apply orb_false_elim in Hq as [Hc Hs].
    destruct (scan_plain_data s fs [c] true rest Hs) as [p1 H1].
    { unfold fits in Hfit. simpl in *. lia. }
    exists p1, (mkReader IN_FIELD fs (c :: s)). split; [by constructor|].
    cbn [app]. by rewrite scan_first_plain.
Qed.

Lemma scan_comma st fs s r p rest :
  field_start st ->
  field_read st fs s r ->
  scan r p (COMMA :: rest) = scan (mkReader START_FIELD (fs ++ [s]) []) true rest.
Proof.
  intros Hst [-> | Hne |]; [by destruct Hst as [-> | ->]|done|done].
Qed.

Lemma scan_line_end st fs s r p rest :
  field_read st fs s r ->
  state r ≠ START_RECORD ->
  field_start st ->
  scan r p (CR :: LF :: rest)
  = yield (fs ++ [s]) (scan parse_reset false rest).
Proof.
  intros [-> | Hne |] Hr Hst; [|done|done].
  destruct Hst as [-> | ->]; done.
Qed.

Lemma field_read_state fs s r :
  field_read START_FIELD fs s r -> state r ≠ START_RECORD.
Proof. by intros [].  Qed.

Lemma scan_more_fields cells : forall fs s p rest,
  Forall fits (s :: cells) ->
  scan (mkReader START_FIELD fs []) p
       (field_text s ++ more_fields cells ++ CR :: LF :: rest)
  = yield (fs ++ s :: cells) (scan parse_reset false rest).
Proof.
  induction cells as [|s' cells IH]; intros fs s p rest Hfit;
    apply Forall_cons in Hfit as [Hs Hfit].
  - cbn [more_fields flat_map app].
    destruct (scan_field_text START_FIELD fs s p (CR :: LF :: rest))
      as (p' & r & Hr & ->); [by right|done|].
    apply (scan_line_end START_FIELD); [done| |by right].
    by eapply field_read_state.
  - cbn [more_fields flat_map]. fold (more_fields cells).
    rewrite <- app_assoc. cbn [app].
    destruct (scan_field_text START_FIELD fs s p
                (COMMA :: field_text s' ++ more_fields cells ++ CR :: LF :: rest))
      as (p' & r & Hr & ->); [by right|done|].
    rewrite (scan_comma START_FIELD fs s) by (done || by right).
    rewrite IH by done. by rewrite <- app_assoc.
Qed.

(** One record, as written, is read back as the record. *)
Lemma scan_record cells rest :
  cells ≠ [] ->
  Forall fits cells ->
  scan parse_reset false (record_text cells ++ lineterminator ++ rest)
  = yield cells (scan parse_reset false rest).
Proof.
  intros Hne Hfit. destruct cells as [|s cells]; [done|].
  apply Forall_cons in Hfit as [Hs Hfit].
  unfold parse_reset at 1.
  change (lineterminator ++ rest) with (CR :: LF :: rest).
  destruct cells as [|s' cells].
  - destruct s as [|c s]; [done|].
    cbn [record_text more_fields flat_map]. rewrite app_nil_r.
    destruct (scan_field_text START_RECORD [] (c :: s) false
                (CR :: LF :: rest))
      as (p' & r & Hr & ->); [by left|done|].
    apply (scan_line_end START_RECORD [] (c :: s)); [done| |by left].
    by destruct Hr.
  - assert (record_text (s :: s' :: cells)
            = field_text s ++ more_fields (s' :: cells)) as ->.
    { by destruct s. }
    cbn [more_fields flat_map]. fold (more_fields cells).
    rewrite <- !app_assoc. cbn [app].
    destruct (scan_field_text START_RECORD [] s false
                (COMMA :: field_text s' ++ more_fields cells
                   ++ CR :: LF :: rest))
      as (p' & r & Hr & ->); [by left|done|].
    rewrite (scan_comma START_RECORD [] s) by (done || by left).
    by rewrite scan_more_fields.
Qed.

(** A record the writer can have written and the reader can read back:
    it has a field, and every field is within the reader's limit. *)
Definition readable (cells : list (list ascii)) : Prop :=
  cells ≠ [] ∧ Forall fits cells.

Definition records_text (rows : list (list (list ascii))) : list ascii :=
  flat_map (fun cells => record_text cells ++ lineterminator) rows.

Lemma scan_records rows :
  Forall readable rows ->
  scan parse_reset false (records_text rows) = (rows, None).
Proof.
  induction rows as [|cells rows IH]; intros Hrows; [done|].
  apply Forall_cons in Hrows as [[Hne Hfit] Hrows].
  cbn [records_text flat_map]. fold (records_text rows).
  rewrite <- app_assoc, scan_record by done.
  by rewrite IH.
Qed.

(** The reader inverts the writer on a whole file. *)
Lemma reader_records_text rows :
  Forall readable rows ->
  reader parse_reset (readlines_from [] (records_text rows)) = (rows, None).
Proof. intros H. by rewrite reader_scan, scan_records. Qed.

End CsvFacts.
Export CsvFacts.

Module StoreFacts.
Import CSVDatabase.

(** * The store on disk *)

(** A string the reader can hold in one field. *)
Definition fits_str (s : string) : Prop :=
  (N.of_nat (String.length s) <= field_limit)%N.

(** A value as the store holds it: a string within the reader's limit. *)
Definition text_value (v : pyval) : Prop :=
  match v with
  | PyStr s => fits_str s
  | _ => False
  end.

#[global] Instance text_value_dec v : Decision (text_value v).
Proof. destruct v; simpl; unfold fits_str; apply _. Defined.

(** A record of the store: its keys are the fields of the schema and its
    values are strings. *)
Definition record_of (hs : list string) (d : pydict) : Prop :=
  dom d = list_to_set hs ∧ map_Forall (fun _ v => text_value v) d.

(** The cells of a record in schema order, and the file that holds a
    sequence of records under a header. *)
Definition row_cells (hs : list string) (d : pydict) : list pyval :=
  map (fun key => get_or d key (PyStr "")) hs.

Definition store_text (hs : list string) (recs : list pydict) : string :=
  string_of_list_ascii
    (writerow (map PyStr hs) ++ flat_map (fun d => writerow (row_cells hs d)) recs).

(** The store [me] holds the records [recs], in this order. *)
Record holds (me : self) (recs : list pydict) (fs : filesystem) : Prop := {
  holds_schema : headers me ≠ [];
  holds_names : Forall fits_str (headers me);
  holds_records : Forall (record_of (headers me)) recs;
  holds_file : fs !! db_name me = Some (store_text (headers me) recs)
}.

(** A stored record as a read yields it. *)
Definition as_row (d : pydict) : rowdict := RowDict d None.

Lemma dict_of_snoc pairs k v : dict_of (pairs ++ [(k, v)]) = <[k := v]> (dict_of pairs).
Proof. unfold dict_of. by rewrite foldl_app. Qed.

Lemma dict_of_keyed_lookup (f : string -> pyval) hs k :
  dict_of (map (fun key => (key, f key)) hs) !! k
  = if bool_decide (k ∈ hs) then Some (f k) else None.
Proof.
  induction hs as [|h hs IH] using rev_ind.
  - rewrite bool_decide_eq_false_2; [done|]. apply not_elem_of_nil.
  - rewrite map_app. cbn [map]. rewrite dict_of_snoc.
    destruct (decide (h = k)) as [->|Hne].
    + rewrite lookup_insert_eq, bool_decide_eq_true_2; [done|].
      apply elem_of_app. right. apply list_elem_of_singleton. done.
    + rewrite lookup_insert_ne by done. rewrite IH.
      rewrite (bool_decide_ext (k ∈ hs) (k ∈ hs ++ [h])); [done|].
      rewrite elem_of_app, list_elem_of_singleton.
      split; [by left|]. by intros [?|?].
Qed.

Lemma zip_keyed {A B} (f : A -> B) (l : list A) :
  zip l (map f l) = map (fun a => (a, f a)) l.
Proof. induction l; simpl; by f_equal. Qed.

Lemma record_of_lookup hs d k :
  record_of hs d -> k ∈ hs -> exists s, d !! k = Some (PyStr s) ∧ fits_str s.
Proof.
  intros [Hdom Hval] Hk.
  assert (is_Some (d !! k)) as [v Hv].
  { apply elem_of_dom. rewrite Hdom. by apply elem_of_list_to_set. }
  specialize (Hval k v Hv). destruct v; try done. eauto.
Qed.

Lemma record_of_dict hs d :
  record_of hs d ->
  dict_of (map (fun key => (key, get_or d key (PyStr ""))) hs) = d.
Proof.
  intros Hd. apply map_eq. intros k. rewrite dict_of_keyed_lookup.
  case_bool_decide as Hk.
  - destruct (record_of_lookup hs d k Hd Hk) as (s & Hs & _).
    unfold get_or. by rewrite Hs.
  - symmetry. apply not_elem_of_dom. destruct Hd as [-> _]. set_solver.
Qed.

Lemma length_chars s : List.length (list_ascii_of_string s) = String.length s.
Proof. induction s; simpl; by f_equal. Qed.

Lemma fits_chars s : fits_str s -> fits (list_ascii_of_string s).
Proof. unfold fits, fits_str. by rewrite length_chars. Qed.

Lemma record_of_cell hs d k :
  record_of hs d -> k ∈ hs ->
  exists s, get_or d k (PyStr "") = PyStr s ∧ fits_str s.
Proof.
  intros Hd Hk. destruct (record_of_lookup hs d k Hd Hk) as (s & Hs & Hfit).
  exists s. unfold get_or. by rewrite Hs.
Qed.

Lemma readable_header hs :
  hs ≠ [] -> Forall fits_str hs -> readable (map list_ascii_of_string hs).
Proof.
  intros Hne Hfit. split; [by destruct hs|].
  apply Forall_map. eapply Forall_impl; [done|]. apply fits_chars.
Qed.

Lemma readable_cells hs d :
  hs ≠ [] -> record_of hs d -> readable (map cell_text (row_cells hs d)).
Proof.
  intros Hne Hd. split; [by destruct hs|].
  unfold row_cells. rewrite map_map. apply Forall_map, Forall_forall.
  intros k Hk. destruct (record_of_cell hs d k Hd Hk) as (s & -> & Hfit).
  by apply fits_chars.
Qed.

(** The file of a store is the header record followed by one record per
    stored record. *)
Lemma store_text_records hs recs :
  list_ascii_of_string (store_text hs recs)
  = records_text (map list_ascii_of_string hs
                    :: map (fun d => map cell_text (row_cells hs d)) recs).
Proof.
  unfold store_text. rewrite list_ascii_of_string_of_list_ascii.
  cbn [records_text flat_map]. rewrite writerow_spec, map_map. f_equal.
  induction recs as [|d recs IH]; [done|].
  cbn [flat_map map]. by rewrite writerow_spec, IH.
Qed.

Lemma DictReader_row_stored hs d :
  record_of hs d ->
  DictReader_row hs
    (map string_of_list_ascii (map cell_text (row_cells hs d)))
  = as_row d.
Proof.
  intros Hd. unfold DictReader_row, row_cells.
  rewrite !length_map, Nat.ltb_irrefl, drop_all. cbn [foldl].
  unfold as_row. f_equal.
  etrans; [|apply (record_of_dict hs d Hd)].
  rewrite !map_map, zip_keyed. f_equal.
  apply map_ext_in. intros k Hk%list_elem_of_In.
  destruct (record_of_cell hs d k Hd Hk) as (s & -> & _).
  cbn [cell_text]. by rewrite string_of_list_ascii_of_string.
Qed.

Lemma filter_all {A} (P : A -> Prop) `{!forall a, Decision (P a)} (l : list A) :
  Forall P l -> filter P l = l.
Proof.
  induction 1 as [|a l Ha Hl IH]; [done|].
  by rewrite filter_cons_True, IH.
Qed.

(** Reading a store yields its records. *)
Lemma DictReader_store hs recs :
  hs ≠ [] ->
  Forall fits_str hs ->
  Forall (record_of hs) recs ->
  DictReader (store_text hs recs) = (map as_row recs, None).
Proof.
  intros Hne Hfit Hrecs. unfold DictReader, readlines.
  rewrite store_text_records, reader_records_text.
  2:{ apply Forall_cons. split; [by apply readable_header|].
      apply Forall_map. eapply Forall_impl; [done|].
      intros d Hd. by apply readable_cells. }
  cbn [map]. rewrite map_map.
  rewrite (map_ext _ id), map_id
    by (intros; apply string_of_list_ascii_of_string).
  rewrite filter_all.
  2:{ apply Forall_map, Forall_map, Forall_forall. intros d _. simpl.
      unfold row_cells. by destruct hs. }
  f_equal. rewrite !map_map. apply map_ext_in.
  intros d Hd%list_elem_of_In.
  rewrite Forall_forall in Hrecs. by apply DictReader_row_stored, Hrecs.
Qed.

(** ** Loops *)

Lemma for_each_pure {A S} (body : S -> A -> result S) (f : S -> A -> S) l :
  (forall s a, body s a = Return (f s a)) ->
  forall s, for_each body s l = Return (foldl f s l).
Proof.
  intros Hbody. induction l as [|a l IH]; intros s; [done|].
  cbn [for_each foldl]. rewrite Hbody. apply IH.
Qed.

Lemma foldl_collect {A} (l : list A) : forall acc,
  foldl (fun acc a => acc ++ [a]) acc l = acc ++ l.
Proof.
  induction l as [|a l IH]; intros acc; simpl; [by rewrite app_nil_r|].
  by rewrite IH, <- app_assoc.
Qed.

Lemma foldl_select {A} (p : A -> bool) (l : list A) : forall acc,
  foldl (fun acc a => if p a then acc ++ [a] else acc) acc l
  = acc ++ List.filter p l.
Proof.
  induction l as [|a l IH]; intros acc; simpl; [by rewrite app_nil_r|].
  rewrite IH. destruct (p a); [|done]. by rewrite <- app_assoc.
Qed.

Lemma foldl_drop {A} (p : A -> bool) (l : list A) : forall (acc : bool * list A),
  foldl (fun acc a => if p a then (true, acc.2) else (acc.1, acc.2 ++ [a])) acc l
  = (acc.1 || existsb p l, acc.2 ++ List.filter (fun a => negb (p a)) l).
Proof.
  induction l as [|a l IH]; intros [b acc]; simpl.
  { by rewrite orb_false_r, app_nil_r. }
  rewrite IH. destruct (p a); simpl; [by rewrite orb_true_r|].
  by rewrite <- app_assoc.
Qed.

Lemma foldl_modify {A} (p : A -> bool) (g : A -> A) (l : list A) :
  forall (acc : bool * list A),
  foldl (fun acc a => if p a then (true, acc.2 ++ [g a])
                      else (acc.1, acc.2 ++ [a])) acc l
  = (acc.1 || existsb p l, acc.2 ++ map (fun a => if p a then g a else a) l).
Proof.
  induction l as [|a l IH]; intros [b acc]; simpl.
  { by rewrite orb_false_r, app_nil_r. }
  rewrite IH. destruct (p a); simpl; rewrite <- app_assoc; [|done].
  by rewrite orb_true_r.
Qed.

(** ** Keys *)

Lemma elem_of_keys (d : pydict) k : k ∈ keys d ↔ is_Some (d !! k).
Proof.
  unfold keys. rewrite list_elem_of_fmap. split.
  - intros ([k' v] & -> & Hkv%elem_of_map_to_list). by exists v.
  - intros [v Hv]. exists (k, v). split; [done|]. by apply elem_of_map_to_list.
Qed.

Lemma filter_none {A} (P : A -> Prop) `{!forall a, Decision (P a)} (l : list A) :
  filter P l = [] ↔ Forall (fun a => ¬ P a) l.
Proof.
  induction l as [|a l IH]; [done|].
  rewrite filter_cons, Forall_cons. destruct (decide (P a)); [|tauto].
  split; [done|tauto].
Qed.

(** No key outside the schema: [dom d ⊆ hs]. *)
Lemma no_extra_keys (hs : list string) (d : pydict) :
  filter (fun key => key ∉ hs) (keys d) = [] ↔ dom d ⊆ list_to_set hs.
Proof.
  rewrite filter_none, Forall_forall. split.
  - intros H k Hk%elem_of_dom. apply elem_of_list_to_set.
    destruct (decide (k ∈ hs)); [done|]. exfalso.
    by apply (H k); [apply elem_of_keys|].
  - intros H k Hk%elem_of_keys%elem_of_dom Hn. apply Hn.
    apply H in Hk. by apply elem_of_list_to_set in Hk.
Qed.

(** No schema field missing: [hs ⊆ dom d]. *)
Lemma no_missing_keys (hs : list string) (d : pydict) :
  filter (fun key => d !! key = None) hs = [] ↔ list_to_set hs ⊆ dom d.
Proof.
  rewrite filter_none, Forall_forall. split.
  - intros H k Hk. apply elem_of_list_to_set in Hk. apply elem_of_dom.
    destruct (d !! k) eqn:E; [done|]. by destruct (H k Hk).
  - intros H k Hk E. assert (is_Some (d !! k)) as [v Hv].
    { apply elem_of_dom, H. by apply elem_of_list_to_set. }
    congruence.
Qed.

(** ** Writing rows *)

Lemma _dict_to_list_ok hs d :
  dom d ⊆ list_to_set hs ->
  _dict_to_list hs (as_row d) = Return (row_cells hs d).
Proof.
  intros Hd. unfold _dict_to_list. cbn [items restkey as_row].
  rewrite bool_decide_eq_true_2; [done|]. split; [|done].
  by apply no_extra_keys.
Qed.

Lemma DictWriter_writerow_ok hs d :
  dom d ⊆ list_to_set hs ->
  DictWriter_writerow hs (as_row d) = Return (writerow (row_cells hs d)).
Proof.
  intros Hd. unfold DictWriter_writerow. by rewrite _dict_to_list_ok.
Qed.

Lemma DictWriter_writeheader_ok hs :
  DictWriter_writeheader hs = Return (writerow (map PyStr hs)).
Proof.
  unfold DictWriter_writeheader. rewrite zip_keyed.
  change (RowDict ?d None) with (as_row d).
  rewrite DictWriter_writerow_ok.
  - do 2 f_equal. unfold row_cells. apply map_ext_in.
    intros k Hk%list_elem_of_In. unfold get_or.
    by rewrite dict_of_keyed_lookup, bool_decide_eq_true_2.
  - intros k [v Hk]%elem_of_dom. rewrite dict_of_keyed_lookup in Hk.
    apply elem_of_list_to_set. by case_bool_decide.
Qed.

Lemma DictWriter_writerows_ok hs recs : forall out,
  Forall (fun d => dom d ⊆ list_to_set hs) recs ->
  DictWriter_writerows hs (map as_row recs) out
  = (out ++ flat_map (fun d => writerow (row_cells hs d)) recs, None).
Proof.
  induction recs as [|d recs IH]; intros out Hrecs; cbn [map flat_map].
  { by rewrite app_nil_r. }
  apply Forall_cons in Hrecs as [Hd Hrecs].
  cbn [DictWriter_writerows]. rewrite DictWriter_writerow_ok by done.
  rewrite IH by done. by rewrite <- app_assoc.
Qed.

Lemma rewrite_ok me recs fs :
  Forall (fun d => dom d ⊆ list_to_set (headers me)) recs ->
  rewrite me (map as_row recs) fs
  = (Return (), <[db_name me := store_text (headers me) recs]> fs).
Proof.
  intros Hrecs. unfold rewrite.
  rewrite DictWriter_writeheader_ok, DictWriter_writerows_ok by done.
  done.
Qed.

(** ** Reading and appending *)

Lemma append_chars a b :
  string_of_list_ascii a +:+ string_of_list_ascii b = string_of_list_ascii (a ++ b).
Proof. induction a as [|c a IH]; simpl; [done|]. rewrite <- IH. reflexivity. Qed.

Lemma store_text_snoc hs recs d :
  store_text hs recs +:+ string_of_list_ascii (writerow (row_cells hs d))
  = store_text hs (recs ++ [d]).
Proof.
  unfold store_text. rewrite append_chars, <- app_assoc. do 2 f_equal.
  rewrite flat_map_app. simpl. by rewrite app_nil_r.
Qed.

Lemma read_holds me recs fs :
  holds me recs fs ->
  open_read (db_name me) fs = Return (store_text (headers me) recs)
  ∧ DictReader (store_text (headers me) recs) = (map as_row recs, None).
Proof.
  intros [Hne Hfit Hrecs Hfile]. split.
  - unfold open_read. by rewrite Hfile.
  - by apply DictReader_store.
Qed.

Lemma find_all_holds me recs fs :
  holds me recs fs -> find_all me fs = (Return (map as_row recs), fs).
Proof.
  intros [Hopen Hread]%read_holds. unfold find_all, for_in.
  rewrite Hopen. cbn [mbind result_bind]. rewrite Hread. cbn [fst snd].
  rewrite (for_each_pure _ (fun acc row => acc ++ [row])) by done.
  by rewrite foldl_collect.
Qed.

Lemma record_of_nonempty hs d : hs ≠ [] -> record_of hs d -> d ≠ ∅.
Proof.
  intros Hne [Hdom _] ->. rewrite dom_empty_L in Hdom.
  destruct hs as [|h hs]; [done|].
  apply (not_elem_of_empty (C := gset string) h). rewrite Hdom.
  apply elem_of_list_to_set. by left.
Qed.

Lemma fill_or_check_record me d fill_missing :
  record_of (headers me) d -> fill_or_check me d fill_missing = Return d.
Proof.
  intros Hd. unfold fill_or_check. destruct fill_missing.
  - by rewrite record_of_dict.
  - rewrite bool_decide_eq_true_2; [done|].
    apply no_missing_keys. by destruct Hd as [-> _].
Qed.

Lemma insert_holds me recs fs d fill_missing :
  holds me recs fs ->
  record_of (headers me) d ->
  insert me (Dict d) fill_missing fs
  = (Return true,
     <[db_name me := store_text (headers me) recs
                     +:+ string_of_list_ascii (writerow (row_cells (headers me) d))]> fs).
Proof.
  intros Hst Hd. unfold insert.
  rewrite bool_decide_eq_false_2
    by (eapply record_of_nonempty; [apply Hst|done]).
  rewrite fill_or_check_record by done.
  assert (Hsub : dom d ⊆ list_to_set (headers me)) by by destruct Hd as [-> _].
  rewrite bool_decide_eq_true_2 by by apply no_extra_keys.
  change (RowDict d None) with (as_row d).
  rewrite DictWriter_writerow_ok by done.
  by rewrite (holds_file _ _ _ Hst).
Qed.

Lemma holds_insert me recs fs d :
  holds me recs fs ->
  record_of (headers me) d ->
  holds me (recs ++ [d])
    (<[db_name me := store_text (headers me) recs
                     +:+ string_of_list_ascii (writerow (row_cells (headers me) d))]> fs).
Proof.
  intros [Hne Hfit Hrecs Hfile] Hd. split; [done|done| |].
  - apply Forall_app. split; [done|]. by apply Forall_singleton.
  - by rewrite lookup_insert_eq, store_text_snoc.
Qed.

(** ** Matching *)

Lemma py_eq_spec a b : py_eq a b = true ↔ a = b.
Proof.
  destruct a, b; simpl; try (split; congruence).
  - rewrite String.eqb_eq. split; congruence.
  - rewrite Z.eqb_eq. split; congruence.
Qed.

Lemma py_eq_refl a : py_eq a a = true.
Proof. by apply py_eq_spec. Qed.

(** [row.get(key) == value] on a stored record. *)
Definition field_is (key : string) (value : pyval) (d : pydict) : bool :=
  py_eq (get d key) value.

Lemma field_is_spec key value d : field_is key value d = true ↔ get d key = value.
Proof. apply py_eq_spec. Qed.

Lemma get_outside hs d key : record_of hs d -> key ∉ hs -> get d key = PyNone.
Proof.
  intros [Hdom _] Hk. unfold get.
  assert (d !! key = None) as ->; [|done].
  apply not_elem_of_dom. rewrite Hdom. by rewrite elem_of_list_to_set.
Qed.

Lemma all_equal_spec row (condition : pydict) :
  all_equal row condition = true
  ↔ map_Forall (fun k v => get (items row) k = v) condition.
Proof.
  unfold all_equal. rewrite forallb_forall, map_Forall_to_list, Forall_forall.
  split.
  - intros H [k v] Hkv%list_elem_of_In. simpl. apply py_eq_spec. by apply (H (k, v)).
  - intros H [k v] Hkv%list_elem_of_In. simpl. apply py_eq_spec. by apply (H (k, v)).
Qed.

Lemma check_condition_spec me (condition : pydict) :
  check_condition me condition =
  if bool_decide (condition = ∅) then Raise ConditionEmpty
  else if bool_decide (dom condition ⊆ list_to_set (headers me)) then Return ()
  else Raise ConditionKey.
Proof.
  unfold check_condition. case_bool_decide; [done|].
  destruct (forallb _ _) eqn:E.
  - rewrite bool_decide_eq_true_2; [done|].
    rewrite forallb_forall in E. intros k Hk%elem_of_dom%elem_of_keys.
    apply elem_of_list_to_set. apply list_elem_of_In, E in Hk.
    by apply bool_decide_eq_true in Hk.
  - rewrite bool_decide_eq_false_2; [done|]. intros Hsub.
    apply not_true_iff_false in E. apply E, forallb_forall.
    intros k Hk%list_elem_of_In%elem_of_keys%elem_of_dom%Hsub.
    apply bool_decide_eq_true. by apply elem_of_list_to_set in Hk.
Qed.

(** ** The rewriting operations *)

Lemma finish_unchanged me rows fs :
  finish me (Return (false, rows)) fs = (Return false, fs).
Proof. done. Qed.

Lemma finish_rewrite me recs fs :
  Forall (fun d => dom d ⊆ list_to_set (headers me)) recs ->
  finish me (Return (true, map as_row recs)) fs
  = (Return true, <[db_name me := store_text (headers me) recs]> fs).
Proof. intros H. unfold finish. by rewrite rewrite_ok. Qed.

Lemma record_of_dom hs d : record_of hs d -> dom d ⊆ list_to_set hs.
Proof. by intros [-> _]. Qed.

Lemma existsb_fmap {A B} (p : B -> bool) (f : A -> B) (l : list A) :
  existsb p (map f l) = existsb (fun a => p (f a)) l.
Proof. induction l as [|a l IH]; [done|]. simpl. by rewrite IH. Qed.

Lemma filter_fmap {A B} (p : B -> bool) (f : A -> B) (l : list A) :
  List.filter p (map f l) = map f (List.filter (fun a => p (f a)) l).
Proof.
  induction l as [|a l IH]; [done|]. simpl. rewrite IH. by destruct (p (f a)).
Qed.

Definition modify (key : string) (value : pyval) (new_data : pydict)
    (d : pydict) : pydict :=
  if field_is key value d then new_data ∪ d else d.

Lemma update_read me recs fs key value (new_data : pydict) :
  holds me recs fs ->
  (f ← open_read (db_name me) fs;
   for_in (DictReader f)
     (fun acc row =>
        Return (if py_eq (get (items row) key) value
                then (true, acc.2 ++ [RowDict (new_data ∪ items row) (restkey row)])
                else (acc.1, acc.2 ++ [row])))
     (false, []))
  = Return (existsb (field_is key value) recs,
            map as_row (map (modify key value new_data) recs)).
Proof.
  intros [Hopen Hread]%read_holds. rewrite Hopen. cbn [mbind result_bind].
  unfold for_in. rewrite Hread. cbn [fst snd].
  rewrite (for_each_pure _
    (fun acc row => if py_eq (get (items row) key) value
                    then (true, acc.2 ++ [RowDict (new_data ∪ items row) (restkey row)])
                    else (acc.1, acc.2 ++ [row]))) by done.
  cbn [mbind result_bind].
  rewrite (foldl_modify (fun row => py_eq (get (items row) key) value)
             (fun row => RowDict (new_data ∪ items row) (restkey row))).
  cbn [fst snd orb app]. f_equal. f_equal.
  - by rewrite existsb_fmap.
  - rewrite !map_map. apply map_ext. intros d. unfold modify, field_is. simpl.
    by destruct (py_eq (get d key) value).
Qed.

Lemma update_holds me recs fs key value (new_data : pydict) :
  holds me recs fs ->
  dom new_data ⊆ list_to_set (headers me) ->
  update me key value new_data fs
  = (Return (existsb (field_is key value) recs),
     if existsb (field_is key value) recs
     then <[db_name me := store_text (headers me)
                            (map (modify key value new_data) recs)]> fs
     else fs).
Proof.
  intros Hst Hnew. unfold update. rewrite (update_read me recs) by done.
  destruct (existsb _ recs); [|done].
  apply finish_rewrite. apply Forall_map.
  eapply Forall_impl; [apply (holds_records _ _ _ Hst)|].
  intros d Hd%record_of_dom. unfold modify.
  destruct (field_is key value d); [|done].
  rewrite dom_union_L. by apply union_least.
Qed.

Lemma record_of_modify hs key value (new_data d : pydict) :
  dom new_data ⊆ list_to_set hs ->
  map_Forall (fun _ v => text_value v) new_data ->
  record_of hs d ->
  record_of hs (modify key value new_data d).
Proof.
  intros Hdom Hval [Hd Hv]. unfold modify.
  destruct (field_is key value d); [|done]. split.
  - rewrite dom_union_L, Hd. by apply subseteq_union_1_L.
  - by apply map_Forall_union_2.
Qed.

Lemma drop_matching_step (matches : rowdict -> result bool) acc row hit :
  matches row = Return hit ->
  drop_matching matches acc row
  = Return (if hit then (true, acc.2) else (acc.1, acc.2 ++ [row])).
Proof. intros H. unfold drop_matching. by rewrite H. Qed.

Lemma for_each_drop (matches : rowdict -> result bool) (m : pydict -> bool)
    (recs : list pydict) :
  Forall (fun d => matches (as_row d) = Return (m d)) recs ->
  forall acc,
    for_each (drop_matching matches) acc (map as_row recs)
    = Return (acc.1 || existsb m recs,
              acc.2 ++ map as_row (List.filter (fun d => negb (m d)) recs)).
Proof.
  induction 1 as [|d recs Hd Hrecs IH]; intros [b acc].
  { simpl. by rewrite orb_false_r, app_nil_r. }
  cbn [map for_each]. rewrite (drop_matching_step _ _ _ _ Hd).
  cbn [mbind result_bind]. rewrite IH. simpl.
  destruct (m d); simpl; [by rewrite orb_true_r|].
  by rewrite <- app_assoc.
Qed.

Lemma delete_read me recs fs (matches : rowdict -> result bool)
    (m : pydict -> bool) :
  holds me recs fs ->
  Forall (fun d => matches (as_row d) = Return (m d)) recs ->
  (f ← open_read (db_name me) fs;
   for_in (DictReader f) (drop_matching matches) (false, []))
  = Return (existsb m recs,
            map as_row (List.filter (fun d => negb (m d)) recs)).
Proof.
  intros [Hopen Hread]%read_holds Hm. rewrite Hopen. cbn [mbind result_bind].
  unfold for_in. rewrite Hread. cbn [fst snd].
  by rewrite (for_each_drop matches m).
Qed.

Lemma Forall_filter_bool {A} (P : A -> Prop) (p : A -> bool) (l : list A) :
  Forall P l -> Forall P (List.filter p l).
Proof.
  induction 1 as [|a l Ha Hl IH]; [done|]. simpl.
  destruct (p a); [by constructor|done].
Qed.

Lemma finish_delete me recs fs (m : pydict -> bool) :
  holds me recs fs ->
  finish me
    (Return (existsb m recs, map as_row (List.filter (fun d => negb (m d)) recs)))
    fs
  = (Return (existsb m recs),
     if existsb m recs
     then <[db_name me := store_text (headers me)
              (List.filter (fun d => negb (m d)) recs)]> fs
     else fs).
Proof.
  intros Hst. destruct (existsb m recs); [|done].
  apply finish_rewrite, Forall_filter_bool.
  eapply Forall_impl; [apply (holds_records _ _ _ Hst)|].
  apply record_of_dom.
Qed.

Lemma delete_holds me recs fs key value :
  holds me recs fs ->
  delete me key value fs
  = (Return (existsb (field_is key value) recs),
     if existsb (field_is key value) recs
     then <[db_name me := store_text (headers me)
              (List.filter (fun d => negb (field_is key value d)) recs)]> fs
     else fs).
Proof.
  intros Hst. unfold delete.
  rewrite (delete_read me recs fs _ (field_is key value)) by
    (done || by apply Forall_forall).
  by apply finish_delete.
Qed.

Lemma delete_where_holds me recs fs condition (m : pydict -> bool) :
  holds me recs fs ->
  condition ≠ Value PyNone ->
  Forall (fun d => _match me (as_row d) condition = Return (m d)) recs ->
  delete_where me condition fs
  = (Return (existsb m recs),
     if existsb m recs
     then <[db_name me := store_text (headers me)
              (List.filter (fun d => negb (m d)) recs)]> fs
     else fs).
Proof.
  intros Hst Hcond Hm.
  assert (delete_where me condition fs
          = finish me
              (f ← open_read (db_name me) fs;
               for_in (DictReader f)
                 (drop_matching (fun row => _match me row condition)) (false, []))
              fs) as ->.
  { unfold delete_where. by destruct condition as [| |[]]. }
  rewrite (delete_read me recs fs _ m) by done.
  by apply finish_delete.
Qed.

(** The matcher of [delete_where] for a dictionary condition that passes
    the checks. *)
Lemma _match_dict me row (condition : pydict) :
  condition ≠ ∅ ->
  dom condition ⊆ list_to_set (headers me) ->
  _match me row (Dict condition) = Return (all_equal row condition).
Proof.
  intros Hne Hsub. unfold _match. rewrite check_condition_spec.
  by rewrite bool_decide_eq_false_2, bool_decide_eq_true_2.
Qed.

(** Holding is kept by what the operations write. *)
Lemma holds_write me recs recs' fs :
  holds me recs fs ->
  Forall (record_of (headers me)) recs' ->
  holds me recs' (<[db_name me := store_text (headers me) recs']> fs).
Proof.
  intros [Hne Hfit _ _] Hrecs. split; [done|done|done|].
  by rewrite lookup_insert_eq.
Qed.

Lemma for_each_no_hit (matches : rowdict -> result bool) (rows : list rowdict) :
  Forall (fun row => matches row = Return false) rows ->
  forall acc,
    for_each (drop_matching matches) acc rows = Return (acc.1, acc.2 ++ rows).
Proof.
  induction 1 as [|row rows Hrow Hrows IH]; intros [b acc].
  { simpl. by rewrite app_nil_r. }
  cbn [for_each]. rewrite (drop_matching_step _ _ _ _ Hrow).
  cbn [mbind result_bind]. rewrite IH. simpl. by rewrite <- app_assoc.
Qed.

(** ** Lookups *)

Lemma find_holds me recs fs key value :
  holds me recs fs ->
  key ≠ "" ->
  truthy value = true ->
  find me key value fs
  = (Return (map as_row (List.filter (field_is key value) recs)), fs).
Proof.
  intros [Hopen Hread]%read_holds Hkey Hvalue. unfold find.
  rewrite Hvalue. cbn [truthy]. apply String.eqb_neq in Hkey. rewrite Hkey.
  cbn [negb orb]. f_equal. rewrite Hopen. cbn [mbind result_bind].
  unfold for_in. rewrite Hread. cbn [fst snd].
  rewrite (for_each_pure _
    (fun acc row => if py_eq (get (items row) key) value
                    then acc ++ [row] else acc)) by done.
  cbn [mbind result_bind].
  rewrite (foldl_select (fun row => py_eq (get (items row) key) value)).
  by rewrite filter_fmap.
Qed.

Lemma find_where_dict me recs fs (condition : pydict) :
  holds me recs fs ->
  find_where me (Dict condition) fs
  = (if bool_decide (condition = ∅) then Raise ConditionEmpty
     else if bool_decide (dom condition ⊆ list_to_set (headers me))
     then Return (map as_row
                    (List.filter (fun d => all_equal (as_row d) condition) recs))
     else Raise ConditionKey,
     fs).
Proof.
  intros [Hopen Hread]%read_holds. unfold find_where. f_equal.
  rewrite Hopen. cbn [mbind result_bind]. rewrite check_condition_spec.
  repeat case_bool_decide; try done. cbn [mbind result_bind].
  unfold for_in. rewrite Hread. cbn [fst snd].
  rewrite (for_each_pure _
    (fun acc row => if all_equal row condition then acc ++ [row] else acc))
    by done.
  cbn [mbind result_bind].
  rewrite (foldl_select (fun row => all_equal row condition)).
  by rewrite filter_fmap.
Qed.

(** ** A row the writer refuses *)

Lemma DictWriter_writerow_extra hs (d : pydict) rest :
  ¬ dom d ⊆ list_to_set hs ->
  DictWriter_writerow hs (RowDict d rest) = Raise WriterExtraFields.
Proof.
  intros Hd. unfold DictWriter_writerow, _dict_to_list. cbn [items restkey].
  rewrite bool_decide_eq_false_2; [done|]. intros [H _].
  by apply Hd, no_extra_keys.
Qed.

Lemma DictWriter_writerows_app hs rows1 rows2 out :
  DictWriter_writerows hs (rows1 ++ rows2) out
  = match DictWriter_writerows hs rows1 out with
    | (out', None) => DictWriter_writerows hs rows2 out'
    | (out', Some e) => (out', Some e)
    end.
Proof.
  revert out. induction rows1 as [|row rows1 IH]; intros out; [done|].
  cbn [app DictWriter_writerows].
  destruct (DictWriter_writerow hs row); [done|]. apply IH.
Qed.

(** The first stored record whose field has the value, with the records
    before it. *)
Lemma first_hit (p : pydict -> bool) (recs : list pydict) :
  existsb p recs = true ->
  exists before d after,
    recs = before ++ d :: after ∧ Forall (fun d => p d = false) before
    ∧ p d = true.
Proof.
  induction recs as [|d recs IH]; [done|]. simpl.
  destruct (p d) eqn:Hd.
  - intros _. by exists [], d, recs.
  - intros (before & d' & after & -> & Hbefore & Hd')%IH.
    exists (d :: before), d', after. split; [done|]. split; [|done].
    by constructor.
Qed.

Lemma update_extra_keys me recs fs key value (new_data : pydict) :
  holds me recs fs ->
  ¬ dom new_data ⊆ list_to_set (headers me) ->
  existsb (field_is key value) recs = true ->
  exists before d after,
    recs = before ++ d :: after
    ∧ Forall (fun d => field_is key value d = false) before
    ∧ field_is key value d = true
    ∧ update me key value new_data fs
      = (Raise WriterExtraFields,
         <[db_name me := store_text (headers me) before]> fs).
Proof.
  intros Hst Hnew Hhit.
  destruct (first_hit _ _ Hhit) as (before & d & after & -> & Hbefore & Hd).
  exists before, d, after. do 3 (split; [done|]).
  unfold update. rewrite (update_read me (before ++ d :: after)) by done.
  rewrite Hhit. unfold finish, rewrite.
  rewrite DictWriter_writeheader_ok.
  rewrite !map_app, DictWriter_writerows_app.
  assert (map (modify key value new_data) before = before) as ->.
  { clear -Hbefore. induction Hbefore as [|d' l Hd' Hl IH]; [done|].
    simpl. unfold modify at 1. by rewrite Hd', IH. }
  rewrite DictWriter_writerows_ok.
  2:{ pose proof (holds_records _ _ _ Hst) as Hrecs.
      apply Forall_app in Hrecs as [Hrecs _].
      eapply Forall_impl; [done|]. apply record_of_dom. }
  cbn [map DictWriter_writerows]. unfold modify at 1. rewrite Hd.
  unfold as_row at 1. rewrite DictWriter_writerow_extra; [done|].
  rewrite dom_union_L. intros Hsub. apply Hnew.
  etrans; [apply union_subseteq_l|done].
Qed.

End StoreFacts.

(** * The specification *)

Export StoreFacts.
Import CSVDatabase.

(** Closes a goal about concrete data by evaluation. *)
Ltac evaluate :=
  first [ done
        | vm_compute; reflexivity
        | apply (bool_decide_unpack _); vm_compute; exact I ].

(** ** A store to try the statements on *)

Module Example.

Definition users : self := Self "users.csv" ["name"; "age"].

Definition ann : pydict := {[ "name" := PyStr "ann"; "age" := PyStr "30" ]}.
Definition bob : pydict := {[ "name" := PyStr "bob"; "age" := PyStr "40" ]}.

(** Values with a comma, a quote, a CR LF pair and a lone CR. *)
Definition odd : pydict :=
  {[ "name" := PyStr (String "a" (String COMMA (String DQUOTE (String "b" EmptyString))));
     "age" := PyStr (String CR (String LF (String DQUOTE (String CR EmptyString)))) ]}.

(** The disk with the one file of a store that holds [recs]. *)
Definition disk (recs : list pydict) : filesystem :=
  {[ "users.csv" := store_text ["name"; "age"] recs ]}.

End Example.

(** ** Lifecycle: how a store comes to hold records *)

Lemma holds_init name fields fs :
  fields ≠ [] ->
  Forall fits_str fields ->
  fs !! (if endswith name ".csv" then name else name +:+ ".csv") = None ->
  exists me,
    __init__ name fields fs = (Return me, (__init__ name fields fs).2)
    ∧ headers me = fields
    ∧ holds me [] (__init__ name fields fs).2.
Proof.
  intros Hne Hfit Habsent. unfold __init__. rewrite Habsent.
  rewrite DictWriter_writeheader_ok.
  destruct fields as [|h t]; [done|].
  eexists. split; [done|]. split; [done|]. cbn [snd].
  split; cbn [headers db_name]; [done|done|done|].
  rewrite lookup_insert_eq. unfold store_text. cbn [flat_map].
  by rewrite app_nil_r.
Qed.

(** ** C7 *)

(** C7. [find_where(None)] and [delete_where(None)] raise the
    "None is provided" ValueError (InvalidConditionError) whatever the file
    system is -- the backing file may hold anything or be absent -- and
    leave the file system as it was: the test comes before the file is
    opened. *)
Theorem none_condition_rejected_upfront (me : self) (fs : filesystem) :
  find_where me (Value PyNone) fs = (Raise ConditionIsNone, fs)
  ∧ delete_where me (Value PyNone) fs = (Raise ConditionIsNone, fs).
Proof. split; reflexivity. Qed.

(** ** C8 *)

(** C8. On a store that holds [recs], [find(key, value)] raises the
    InvalidArgumentError ValueError exactly when [key] is empty or [value]
    is falsy; otherwise it returns, in file order, the records whose
    [key] entry is [value] (equality of strings; a value that is not a
    string equals no stored value), which is the empty list when there is
    none.  The file system is never changed. *)
Theorem find_by_key_and_value (me : self) (recs : list pydict)
    (fs : filesystem) (key : string) (value : pyval) :
  holds me recs fs ->
  ((find me key value fs).1 = Raise FindArguments
     ↔ key = "" ∨ truthy value = false)
  ∧ (find me key value fs).2 = fs
  ∧ (key ≠ "" -> truthy value = true ->
     (find me key value fs).1
     = Return (map as_row
                 (List.filter (fun d => bool_decide (d !! key = Some value)) recs)))
  ∧ (key ≠ "" -> truthy value = true ->
     Forall (fun d => d !! key ≠ Some value) recs ->
     (find me key value fs).1 = Return []).
Proof.
  intros Hst.
  assert (Hfilter : truthy value = true ->
    List.filter (field_is key value) recs
    = List.filter (fun d => bool_decide (d !! key = Some value)) recs).
  { intros Hv. apply filter_ext. intros d. apply Bool.eq_iff_eq_true.
    rewrite field_is_spec, bool_decide_eq_true. unfold get.
    destruct (d !! key) as [v|]; simpl; [split; congruence|].
    split; [|done]. intros <-. done. }
  destruct (decide (key = "")) as [->|Hkey].
  { split; [|split; [|split]]; try done.
    - split; [by left|]. intros _. unfold find. by destruct value. }
  destruct (truthy value) eqn:Hv.
  - rewrite (find_holds me recs) by done. cbn [fst snd]. rewrite Hfilter by done.
    split; [|split; [|split]]; try done.
    + split; [done|]. by intros [|].
    + intros _ _ Hnone.
      assert (List.filter (fun d => bool_decide (d !! key = Some value)) recs
              = []) as ->; [|done].
      clear -Hnone. induction Hnone as [|d l Hd Hl IH]; [done|].
      cbn [List.filter]. by rewrite bool_decide_eq_false_2.
  - assert (find me key value fs = (Raise FindArguments, fs)) as ->.
    { unfold find. rewrite Hv. by rewrite orb_true_r. }
    split; [|split; [|split]]; try done. split; [by right|done].
Qed.

Lemma find_by_key_and_value_witness :
  holds Example.users [Example.ann; Example.bob] (Example.disk [Example.ann; Example.bob])
  ∧ (find Example.users "name" (PyStr "bob")
       (Example.disk [Example.ann; Example.bob])).1
    = Return [as_row Example.bob].
Proof.
  assert (H : holds Example.users [Example.ann; Example.bob]
                (Example.disk [Example.ann; Example.bob])).
  { split; evaluate. }
  split; [exact H|].
  destruct (find_by_key_and_value Example.users _ _ "name" (PyStr "bob") H)
    as (_ & _ & Hfound & _).
  rewrite Hfound by evaluate. evaluate.
Defined.

(** ** C5 *)

(** C5. On a store that holds [recs], inserting a record [r] whose keys
    are the schema's fields and whose values are strings returns [True]
    and appends the one row of [r] to the file, touching nothing else;
    [find_all] gave the records [recs] before and gives [recs] followed by
    [r], field for field, afterwards. *)
Theorem insert_then_find_all (me : self) (recs : list pydict)
    (fs : filesystem) (r : pydict) (fill_missing : bool) :
  holds me recs fs ->
  record_of (headers me) r ->
  let fs' := (insert me (Dict r) fill_missing fs).2 in
  (insert me (Dict r) fill_missing fs).1 = Return true
  ∧ fs' = <[db_name me :=
              store_text (headers me) recs
              +:+ string_of_list_ascii (writerow (row_cells (headers me) r))]> fs
  ∧ find_all me fs = (Return (map as_row recs), fs)
  ∧ find_all me fs' = (Return (map as_row recs ++ [as_row r]), fs').
Proof.
  intros Hst Hr fs'. subst fs'. rewrite (insert_holds me recs) by done.
  cbn [fst snd].
  split; [done|]. split; [done|]. split; [by apply find_all_holds|].
  rewrite (find_all_holds me (recs ++ [r])) by by apply holds_insert.
  by rewrite map_app.
Qed.

Lemma insert_then_find_all_witness :
  holds Example.users [Example.ann] (Example.disk [Example.ann])
  ∧ record_of ["name"; "age"] Example.odd
  ∧ find_all Example.users
      (insert Example.users (Dict Example.odd) false (Example.disk [Example.ann])).2
    = (Return [as_row Example.ann; as_row Example.odd],
       Example.disk [Example.ann; Example.odd]).
Proof.
  assert (H : holds Example.users [Example.ann] (Example.disk [Example.ann])).
  { split; evaluate. }
  assert (Hr : record_of (headers Example.users) Example.odd).
  { split; evaluate. }
  split; [exact H|]. split; [exact Hr|].
  destruct (insert_then_find_all Example.users _ _ Example.odd false H Hr)
    as (_ & Hfs & _ & ->).
  rewrite Hfs. evaluate.
Defined.

(** ** C6 *)

(** C6. A record whose values are any strings (within the reader's field
    limit) -- commas, quotes, CR and LF included -- is written by
    [DictWriter.writerow] as a row that [DictReader] reads back, under the
    written header, as the same record. *)
Theorem row_round_trip (hs : list string) (r : pydict) :
  hs ≠ [] ->
  Forall fits_str hs ->
  record_of hs r ->
  exists header row,
    DictWriter_writeheader hs = Return header
    ∧ DictWriter_writerow hs (as_row r) = Return row
    ∧ DictReader (string_of_list_ascii (header ++ row)) = ([as_row r], None).
Proof.
  intros Hne Hfit Hr.
  exists (writerow (map PyStr hs)), (writerow (row_cells hs r)).
  split; [apply DictWriter_writeheader_ok|].
  split; [by apply DictWriter_writerow_ok, record_of_dom|].
  transitivity (DictReader (store_text hs [r])).
  - unfold store_text. cbn [flat_map]. by rewrite app_nil_r.
  - apply DictReader_store; [done|done|]. by apply Forall_singleton.
Qed.

Lemma row_round_trip_witness :
  ["name"; "age"] ≠ []
  ∧ Forall fits_str ["name"; "age"]
  ∧ record_of ["name"; "age"] Example.odd
  ∧ exists header row,
      DictWriter_writeheader ["name"; "age"] = Return header
      ∧ DictWriter_writerow ["name"; "age"] (as_row Example.odd) = Return row
      ∧ DictReader (string_of_list_ascii (header ++ row))
        = ([as_row Example.odd], None).
Proof.
  assert (H1 : ["name"; "age"] ≠ []) by evaluate.
  assert (H2 : Forall fits_str ["name"; "age"]) by evaluate.
  assert (H3 : record_of ["name"; "age"] Example.odd) by (split; evaluate).
  split; [exact H1|]. split; [exact H2|]. split; [exact H3|].
  exact (row_round_trip ["name"; "age"] Example.odd H1 H2 H3).
Defined.

(** ** C3 *)

(** C3. On a store that holds [recs], with [new_data] a partial record
    (keys among the schema's fields, string values), [update] returns
    whether some record has [value] under [key]; if none has, nothing is
    written; if one has, the file is rewritten with the same records in
    the same order, a record whose [key] entry is not [value] unchanged,
    and in a record whose [key] entry is [value] exactly the fields named
    in [new_data] replaced by its values. *)
Theorem update_changes_named_fields_only (me : self) (recs : list pydict)
    (fs : filesystem) (key : string) (value : pyval) (new_data : pydict) :
  holds me recs fs ->
  dom new_data ⊆ list_to_set (headers me) ->
  map_Forall (fun _ v => text_value v) new_data ->
  let hit := existsb (field_is key value) recs in
  let recs' := map (modify key value new_data) recs in
  let fs' := (update me key value new_data fs).2 in
  (update me key value new_data fs).1 = Return hit
  ∧ fs' = (if hit then <[db_name me := store_text (headers me) recs']> fs else fs)
  ∧ find_all me fs' = (Return (map as_row recs'), fs')
  ∧ (forall d, field_is key value d = false -> modify key value new_data d = d)
  ∧ (forall d k, field_is key value d = true ->
       modify key value new_data d !! k
       = match new_data !! k with Some v => Some v | None => d !! k end).
Proof.
  intros Hst Hdom Hval hit recs' fs'. subst fs'.
  rewrite (update_holds me recs) by done. cbn [fst snd]. fold hit. fold recs'.
  split; [done|]. split; [done|]. split; [|split].
  - apply find_all_holds. destruct hit eqn:Hhit.
    + apply (holds_write me recs); [done|]. apply Forall_map.
      eapply Forall_impl; [apply (holds_records _ _ _ Hst)|].
      intros d. by apply record_of_modify.
    + assert (recs' = recs) as ->; [|done]. subst recs' hit.
      clear -Hhit. induction recs as [|d recs IH]; [done|].
      simpl in Hhit. apply orb_false_elim in Hhit as [Hd Hrecs].
      simpl. unfold modify at 1. by rewrite Hd, IH.
  - intros d Hd. unfold modify. by rewrite Hd.
  - intros d k Hd. unfold modify. rewrite Hd, lookup_union.
    by destruct (new_data !! k), (d !! k).
Qed.

Lemma update_changes_named_fields_only_witness :
  holds Example.users [Example.ann; Example.bob]
    (Example.disk [Example.ann; Example.bob])
  ∧ (update Example.users "name" (PyStr "bob") {[ "age" := PyStr "41" ]}
       (Example.disk [Example.ann; Example.bob]))
    = (Return true,
       Example.disk [Example.ann; <[ "age" := PyStr "41" ]> Example.bob]).
Proof.
  assert (H : holds Example.users [Example.ann; Example.bob]
                (Example.disk [Example.ann; Example.bob])).
  { split; evaluate. }
  split; [exact H|].
  destruct (update_changes_named_fields_only Example.users _ _
              "name" (PyStr "bob") {[ "age" := PyStr "41" ]} H)
    as (Hres & Hfs & _); [evaluate|evaluate|].
  rewrite (surjective_pairing (update _ _ _ _ _)), Hres, Hfs. evaluate.
Defined.

(** ** C4 *)

(** C4. Whatever the file holds, if it reads as the rows [rows] and the
    condition holds of none of them, [delete_where] returns [False] and
    leaves the file system exactly as it was -- nothing is written; so
    does [delete] when no row has [value] under [key]. *)
Theorem no_match_no_write (me : self) (fs : filesystem) (text : string)
    (rows : list rowdict) (condition : pyobj) (key : string) (value : pyval) :
  fs !! db_name me = Some text ->
  DictReader text = (rows, None) ->
  (condition ≠ Value PyNone ->
   Forall (fun row => _match me row condition = Return false) rows ->
   delete_where me condition fs = (Return false, fs))
  ∧ (Forall (fun row => py_eq (get (items row) key) value = false) rows ->
     delete me key value fs = (Return false, fs)).
Proof.
  intros Hfile Hread.
  assert (Hloop : forall matches,
    Forall (fun row => matches row = Return false) rows ->
    finish me
      (f ← open_read (db_name me) fs;
       for_in (DictReader f) (drop_matching matches) (false, []))
      fs
    = (Return false, fs)).
  { intros matches Hnone. unfold open_read. rewrite Hfile.
    cbn [mbind result_bind]. unfold for_in. rewrite Hread. cbn [fst snd].
    by rewrite for_each_no_hit. }
  split.
  - intros Hcond Hnone. rewrite <- (Hloop _ Hnone).
    unfold delete_where. by destruct condition as [| |[]].
  - intros Hnone. unfold delete. apply Hloop.
    eapply Forall_impl; [done|]. intros row Hrow. simpl. by rewrite Hrow.
Qed.

Lemma no_match_no_write_witness :
  Example.disk [Example.ann; Example.bob] !! "users.csv"
  = Some (store_text ["name"; "age"] [Example.ann; Example.bob])
  ∧ delete_where Example.users (Dict {[ "name" := PyStr "cy" ]})
      (Example.disk [Example.ann; Example.bob])
    = (Return false, Example.disk [Example.ann; Example.bob])
  ∧ delete Example.users "name" (PyStr "cy")
      (Example.disk [Example.ann; Example.bob])
    = (Return false, Example.disk [Example.ann; Example.bob]).
Proof.
  assert (Hfile : Example.disk [Example.ann; Example.bob] !! db_name Example.users
                  = Some (store_text ["name"; "age"] [Example.ann; Example.bob]))
    by evaluate.
  assert (Hread : DictReader (store_text ["name"; "age"] [Example.ann; Example.bob])
                  = ([as_row Example.ann; as_row Example.bob], None))
    by evaluate.
  split; [exact Hfile|].
  destruct (no_match_no_write Example.users _ _ _
              (Dict {[ "name" := PyStr "cy" ]}) "name" (PyStr "cy") Hfile Hread)
    as [Hwhere Hdelete].
  split.
  - apply Hwhere; [done|]. repeat constructor.
  - apply Hdelete. repeat constructor.
Defined.

(** ** C9 *)

(** C9. On a store that holds [recs], when some record has [value] under
    [key] and [new_data] has a key outside the schema, [update] raises the
    ValueError of [csv.DictWriter] for fields not in its field names.  It
    is raised while the file is being rewritten: the file is left with the
    header and the records that came before the first matching one. *)
Theorem update_with_unknown_field_raises (me : self) (recs : list pydict)
    (fs : filesystem) (key : string) (value : pyval) (new_data : pydict) :
  holds me recs fs ->
  ¬ dom new_data ⊆ list_to_set (headers me) ->
  existsb (field_is key value) recs = true ->
  (update me key value new_data fs).1 = Raise WriterExtraFields
  ∧ class_of WriterExtraFields = ValueError
  ∧ exists before d after,
      recs = before ++ d :: after
      ∧ Forall (fun d => field_is key value d = false) before
      ∧ field_is key value d = true
      ∧ (update me key value new_data fs).2
        = <[db_name me := store_text (headers me) before]> fs.
Proof.
  intros Hst Hnew Hhit.
  destruct (update_extra_keys me recs fs key value new_data Hst Hnew Hhit)
    as (before & d & after & Hrecs & Hbefore & Hd & Hupd).
  rewrite Hupd. split; [done|]. split; [done|].
  by exists before, d, after.
Qed.

Lemma update_with_unknown_field_raises_witness :
  holds Example.users [Example.ann; Example.bob]
    (Example.disk [Example.ann; Example.bob])
  ∧ update Example.users "name" (PyStr "bob") {[ "city" := PyStr "x" ]}
      (Example.disk [Example.ann; Example.bob])
    = (Raise WriterExtraFields, Example.disk [Example.ann]).
Proof.
  assert (H : holds Example.users [Example.ann; Example.bob]
                (Example.disk [Example.ann; Example.bob])).
  { split; evaluate. }
  split; [exact H|].
  destruct (update_with_unknown_field_raises Example.users _ _
              "name" (PyStr "bob") {[ "city" := PyStr "x" ]} H)
    as (Hres & _ & _); [evaluate|evaluate|].
  rewrite (surjective_pairing (update _ _ _ _ _)), Hres. evaluate.
Defined.

(** ** C10 *)

(** C10. [delete] checks neither argument.  On a store that holds [recs],
    with [key] not a field of the schema, every record has [None] under
    [key], so [delete(key, None)] matches them all: it returns whether a
    record was stored, and the store holds no record afterwards. *)
Theorem delete_unknown_key_none_empties_store (me : self)
    (recs : list pydict) (fs : filesystem) (key : string) :
  holds me recs fs ->
  key ∉ headers me ->
  let fs' := (delete me key PyNone fs).2 in
  Forall (fun d => py_eq (get d key) PyNone = true) recs
  ∧ (delete me key PyNone fs).1 = Return (negb (bool_decide (recs = [])))
  ∧ holds me [] fs'
  ∧ find_all me fs' = (Return [], fs').
Proof.
  intros Hst Hkey fs'.
  assert (Hall : Forall (fun d => field_is key PyNone d = true) recs).
  { eapply Forall_impl; [apply (holds_records _ _ _ Hst)|].
    intros d Hd. unfold field_is. by rewrite (get_outside (headers me)). }
  assert (Hhit : existsb (field_is key PyNone) recs = negb (bool_decide (recs = []))).
  { destruct Hall as [|d recs' Hd _]; [done|]. simpl. by rewrite Hd. }
  assert (Hkeep : List.filter (fun d => negb (field_is key PyNone d)) recs = []).
  { clear -Hall. induction Hall as [|d recs Hd _ IH]; [done|].
    simpl. by rewrite Hd. }
  assert (Hst' : holds me [] fs').
  { subst fs'. rewrite (delete_holds me recs) by done. cbn [snd].
    rewrite Hhit, Hkeep. destruct recs as [|d0 recs0]; [done|].
    by apply (holds_write me (d0 :: recs0)). }
  split; [done|]. split; [|split; [done|]].
  - rewrite (delete_holds me recs) by done. cbn [fst]. by rewrite Hhit.
  - by apply (find_all_holds me []).
Qed.

Lemma delete_unknown_key_none_empties_store_witness :
  holds Example.users [Example.ann; Example.bob]
    (Example.disk [Example.ann; Example.bob])
  ∧ ("city" ∉ ["name"; "age"])
  ∧ delete Example.users "city" PyNone (Example.disk [Example.ann; Example.bob])
    = (Return true, Example.disk []).
Proof.
  assert (H : holds Example.users [Example.ann; Example.bob]
                (Example.disk [Example.ann; Example.bob])).
  { split; evaluate. }
  assert (Hk : "city" ∉ headers Example.users) by evaluate.
  split; [exact H|]. split; [exact Hk|].
  destruct (delete_unknown_key_none_empties_store Example.users _ _ "city" H Hk)
    as (_ & Hres & _).
  rewrite (surjective_pairing (delete _ _ _ _)), Hres. evaluate.
Defined.

(** ** C2 *)

(** What a dictionary condition that passes the checks asks of a stored
    record: under each of its keys the record has the condition's value. *)
Lemma all_equal_stored hs (d condition : pydict) :
  record_of hs d ->
  dom condition ⊆ list_to_set hs ->
  all_equal (as_row d) condition = true
  ↔ forall k v, condition !! k = Some v -> d !! k = Some v.
Proof.
  intros Hd Hsub. rewrite all_equal_spec. unfold map_Forall. cbn [items as_row].
  split; intros H k v Hkv; specialize (H k v Hkv).
  - assert (k ∈ hs) as Hk.
    { assert (k ∈ dom condition) as Hin by (apply elem_of_dom; by exists v).
      apply Hsub in Hin. by apply elem_of_list_to_set in Hin. }
    destruct (record_of_lookup hs d k Hd Hk) as (s & Hs & _).
    unfold get in H. rewrite Hs in H. simpl in H. by rewrite Hs, H.
  - unfold get. by rewrite H.
Qed.

(** On a store with a record, [delete_where] makes the checks of
    [find_where], on the first row it reads. *)
Lemma delete_where_dict_checked (me : self) (recs : list pydict)
    (fs : filesystem) (condition : pydict) :
  holds me recs fs ->
  recs ≠ [] ->
  (condition = ∅ -> delete_where me (Dict condition) fs = (Raise ConditionEmpty, fs))
  ∧ (condition ≠ ∅ -> ¬ dom condition ⊆ list_to_set (headers me) ->
     delete_where me (Dict condition) fs = (Raise ConditionKey, fs))
  ∧ (condition ≠ ∅ -> dom condition ⊆ list_to_set (headers me) ->
     (delete_where me (Dict condition) fs).1
     = Return (existsb (fun d => all_equal (as_row d) condition) recs)).
Proof.
  intros Hst Hne.
  assert (Hfail : forall e, check_condition me condition = Raise e ->
            delete_where me (Dict condition) fs = (Raise e, fs)).
  { intros e He. destruct (read_holds _ _ _ Hst) as [Hopen Hread].
    unfold delete_where. rewrite Hopen. cbn [mbind result_bind].
    unfold for_in. rewrite Hread. destruct recs as [|d recs]; [done|].
    cbn [fst map for_each]. unfold drop_matching at 1, _match. by rewrite He. }
  split; [|split].
  - intros ->. apply Hfail. by rewrite check_condition_spec.
  - intros Hc Hsub. apply Hfail. rewrite check_condition_spec.
    by rewrite bool_decide_eq_false_2, bool_decide_eq_false_2.
  - intros Hc Hsub.
    rewrite (delete_where_holds me recs fs _
               (fun d => all_equal (as_row d) condition)); [done|done|done|].
    apply Forall_forall. intros d _. by apply _match_dict.
Qed.

(** C2 (the code departs from it).  On a store that holds no record,
    [delete_where] with a dictionary condition returns [False] and writes
    nothing, whatever the dictionary is -- empty, or with keys that are no
    fields of the schema; [find_where] on the same store makes its checks
    and raises. *)
Theorem delete_where_unchecked_on_empty_store (me : self) (fs : filesystem)
    (condition : pydict) :
  holds me [] fs ->
  delete_where me (Dict condition) fs = (Return false, fs)
  ∧ find_where me (Dict condition) fs
    = (if bool_decide (condition = ∅) then Raise ConditionEmpty
       else if bool_decide (dom condition ⊆ list_to_set (headers me))
       then Return []
       else Raise ConditionKey,
       fs).
Proof.
  intros Hst. split.
  - destruct (read_holds _ _ _ Hst) as [Hopen Hread].
    unfold delete_where. by rewrite Hopen; cbn [mbind result_bind];
      unfold for_in; rewrite Hread.
  - by rewrite (find_where_dict me []).
Qed.

Lemma delete_where_unchecked_on_empty_store_witness :
  holds Example.users [] (Example.disk [])
  ∧ delete_where Example.users (Dict ∅) (Example.disk [])
    = (Return false, Example.disk [])
  ∧ find_where Example.users (Dict ∅) (Example.disk [])
    = (Raise ConditionEmpty, Example.disk []).
Proof.
  assert (H : holds Example.users [] (Example.disk [])).
  { split; evaluate. }
  split; [exact H|].
  destruct (delete_where_unchecked_on_empty_store Example.users _ ∅ H)
    as [Hdel Hfind].
  split; [exact Hdel|]. rewrite Hfind. evaluate.
Defined.

(** ** C1 *)

(** C1 (as amended).  With [fill_missing] false, a record that has a key
    outside the schema is never inserted and nothing is written: the call
    raises the "missing keys" ValueError (MissingFieldsError), listing the
    absent fields, when the record lacks a field of the schema, and the
    "unexpected keys" ValueError (UnexpectedFieldsError) when it lacks
    none. *)
Theorem insert_strict_rejects_extra_keys (me : self) (fs : filesystem)
    (row : pydict) (k : string) :
  is_Some (row !! k) ->
  k ∉ headers me ->
  let missing_keys := filter (fun key => row !! key = None) (headers me) in
  insert me (Dict row) false fs
  = (Raise (if bool_decide (missing_keys = []) then UnexpectedKeys
            else MissingKeys missing_keys),
     fs).
Proof.
  intros [v Hv] Hk missing_keys. unfold insert.
  rewrite bool_decide_eq_false_2.
  2:{ intros ->. by rewrite lookup_empty in Hv. }
  unfold fill_or_check. fold missing_keys.
  case_bool_decide as Hmissing; [|done].
  rewrite bool_decide_eq_false_2; [done|].
  rewrite no_extra_keys. intros Hsub. apply Hk.
  assert (k ∈ dom row) as Hin by (apply elem_of_dom; by exists v).
  apply Hsub in Hin. by apply elem_of_list_to_set in Hin.
Qed.

Lemma insert_strict_rejects_extra_keys_witness :
  is_Some (({[ "name" := PyStr "cy"; "age" := PyStr "7"; "city" := PyStr "x" ]} : pydict) !! "city")
  ∧ ("city" ∉ ["name"; "age"])
  ∧ insert Example.users
      (Dict {[ "name" := PyStr "cy"; "age" := PyStr "7"; "city" := PyStr "x" ]})
      false (Example.disk [])
    = (Raise UnexpectedKeys, Example.disk []).
Proof.
  assert (H1 : is_Some (({[ "name" := PyStr "cy"; "age" := PyStr "7";
                           "city" := PyStr "x" ]} : pydict) !! "city"))
    by evaluate.
  assert (H2 : "city" ∉ headers Example.users) by evaluate.
  split; [exact H1|]. split; [exact H2|].
  rewrite (insert_strict_rejects_extra_keys Example.users _ _ "city" H1 H2).
  evaluate.
Defined.

(** C1 as stated fails twice over.  With [fill_missing] true the row is
    rebuilt from the schema's fields, so the key outside the schema is
    dropped before the test for such keys and the record is inserted; with
    [fill_missing] false a record that also lacks a field raises the
    "missing keys" error, not the "unexpected keys" one. *)
Lemma insert_extra_keys_counterexample :
  insert Example.users (Dict {[ "name" := PyStr "cy"; "city" := PyStr "x" ]})
    true (Example.disk [])
  = (Return true,
     Example.disk [ {[ "name" := PyStr "cy"; "age" := PyStr "" ]} ])
  ∧ insert Example.users (Dict {[ "city" := PyStr "x" ]}) false (Example.disk [])
    = (Raise (MissingKeys ["name"; "age"]), Example.disk []).
Proof. split; vm_compute; reflexivity. Qed.

(** With [fill_missing] true no record is refused for its keys: whatever
    keys a non-empty record has, the row built from the schema's fields is
    appended. *)
Lemma insert_fill_missing_drops_extra_keys (me : self) (fs : filesystem)
    (row : pydict) :
  row ≠ ∅ ->
  insert me (Dict row) true fs
  = (Return true,
     <[db_name me :=
         default "" (fs !! db_name me)
         +:+ string_of_list_ascii
               (writerow (map (fun key => get_or row key (PyStr "")) (headers me)))]> fs).
Proof.
  intros Hne. unfold insert. rewrite bool_decide_eq_false_2 by done.
  cbn [fill_or_check].
  set (filled := dict_of _).
  assert (Hlook : forall k, filled !! k
            = if bool_decide (k ∈ headers me)
              then Some (get_or row k (PyStr "")) else None).
  { intros k. apply dict_of_keyed_lookup. }
  assert (Hsub : dom filled ⊆ list_to_set (headers me)).
  { intros k [v Hkv]%elem_of_dom. rewrite Hlook in Hkv.
    apply elem_of_list_to_set. by case_bool_decide. }
  rewrite bool_decide_eq_true_2 by by apply no_extra_keys.
  change (RowDict filled None) with (as_row filled).
  rewrite DictWriter_writerow_ok by done. do 5 f_equal.
  unfold row_cells. apply map_ext_in. intros k Hk%list_elem_of_In.
  unfold get_or at 1. by rewrite Hlook, bool_decide_eq_true_2.
Qed.

(** * More of the store's behaviour *)

(** ** What [insert] accepts *)



(** ** What [insert] stores *)









(** X3. On a store that holds [recs], inserting a non-empty dictionary of
    strings with [fill_missing] true returns [True] and adds one record
    with exactly the schema's fields: a field the dictionary has keeps its
    value, a field it lacks is the empty string, and a key that is no
    field of the schema is dropped without an error. *)
Theorem insert_fill_missing_stores_defaults (me : self) (recs : list pydict)
    (fs : filesystem) (row : pydict) :
  holds me recs fs ->
  row ≠ ∅ ->
  map_Forall (fun _ v => text_value v) row ->
  let fs' := (insert me (Dict row) true fs).2 in
  exists filled : pydict,
    (insert me (Dict row) true fs).1 = Return true
    ∧ find_all me fs' = (Return (map as_row recs ++ [as_row filled]), fs')
    ∧ holds me (recs ++ [filled]) fs'
    ∧ dom filled = list_to_set (headers me)
    ∧ (forall k, k ∈ headers me ->
         filled !! k = Some (default (PyStr "") (row !! k))).
Proof.
  intros Hst Hne Htext fs'.
  set (filled := dict_of (map (fun key => (key, get_or row key (PyStr "")))
                            (headers me))).
  assert (Hlook : forall k, filled !! k
            = if bool_decide (k ∈ headers me)
              then Some (get_or row k (PyStr "")) else None).
  { intros k. apply dict_of_keyed_lookup. }
  assert (Hdom : dom filled = list_to_set (headers me)).
  { apply set_eq. intros k. rewrite elem_of_dom, Hlook, elem_of_list_to_set.
    case_bool_decide; [|by split; [intros []|]]. split; [done|]. by eexists. }
  assert (Hrec : record_of (headers me) filled).
  { split; [done|]. intros k v. rewrite Hlook. case_bool_decide; [|done].
    intros [= <-]. unfold get_or. destruct (row !! k) as [w|] eqn:Hw.
    - by apply (Htext k w).
    - simpl. unfold fits_str. by vm_compute. }
  assert (Hcells : map (fun key => get_or row key (PyStr "")) (headers me)
                   = row_cells (headers me) filled).
  { unfold row_cells. apply map_ext_in. intros k Hk%list_elem_of_In.
    unfold get_or at 2. by rewrite Hlook, bool_decide_eq_true_2. }
  exists filled. subst fs'.
  rewrite (insert_fill_missing_drops_extra_keys me fs row Hne).
  rewrite (holds_file _ _ _ Hst), Hcells. cbn [fst snd default from_option id].
  assert (Hst' := holds_insert me recs fs _ Hst Hrec).
  split; [done|]. split; [|split; [done|split; [done|]]].
  - rewrite (find_all_holds me (recs ++ [filled])) by done. by rewrite map_app.
  - intros k Hk. rewrite Hlook. by rewrite bool_decide_eq_true_2.
Qed.

Lemma insert_fill_missing_stores_defaults_witness :
  holds Example.users [Example.ann] (Example.disk [Example.ann])
  ∧ find_all Example.users
      (insert Example.users
         (Dict {[ "name" := PyStr "cy"; "city" := PyStr "x" ]}) true
         (Example.disk [Example.ann])).2
    = (Return [as_row Example.ann;
               as_row {[ "name" := PyStr "cy"; "age" := PyStr "" ]}],
       Example.disk [Example.ann; {[ "name" := PyStr "cy"; "age" := PyStr "" ]}]).
Proof.
  assert (H : holds Example.users [Example.ann] (Example.disk [Example.ann])).
  { split; evaluate. }
  split; [exact H|].
  destruct (insert_fill_missing_stores_defaults Example.users _ _
              {[ "name" := PyStr "cy"; "city" := PyStr "x" ]} H)
    as (filled & _ & _ & _ & _ & _); [evaluate|evaluate|].
  evaluate.
Defined.

(** ** Creating and destroying the store *)

Lemma substring_all t : substring 0 (String.length t) t = t.
Proof. induction t as [|c t IH]; [done|]. simpl. by rewrite IH. Qed.

Lemma substring_skip s t :
  substring (String.length s) (String.length t) (s +:+ t) = t.
Proof. induction s as [|c s IH]; [apply substring_all|]. simpl. apply IH. Qed.

Lemma length_append s t :
  String.length (s +:+ t) = String.length s + String.length t.
Proof. induction s as [|c s IH]; [done|]. simpl. by rewrite <- IH. Qed.

Lemma endswith_append s t : endswith (s +:+ t) t = true.
Proof.
  unfold endswith. rewrite length_append.
  replace (String.length s + String.length t - String.length t)
    with (String.length s) by lia.
  rewrite substring_skip, String.eqb_refl, andb_true_r.
  apply Nat.leb_le. lia.
Qed.

(** The path a store name stands for. *)
Definition path_of (name : string) : string :=
  if endswith name ".csv" then name else name +:+ ".csv".

Lemma endswith_path_of name : endswith (path_of name) ".csv" = true.
Proof.
  unfold path_of. destruct (endswith name ".csv") eqn:E; [done|].
  apply endswith_append.
Qed.

(** X4. Constructing a store whose file is absent, with a non-empty list
    of fields, succeeds: the path is the name with [.csv] appended unless
    the name ends with it already, the file created is the header row
    alone and nothing else on the disk changes, and the new store holds no
    record: [find_all] returns the empty list. *)
Theorem construct_fresh_store (name : string) (fields : list string)
    (fs : filesystem) :
  fields ≠ [] ->
  Forall fits_str fields ->
  fs !! path_of name = None ->
  let me := Self (path_of name) fields in
  let fs' := <[path_of name := string_of_list_ascii (writerow (map PyStr fields))]> fs in
  __init__ name fields fs = (Return me, fs')
  ∧ endswith (db_name me) ".csv" = true
  ∧ holds me [] fs'
  ∧ find_all me fs' = (Return [], fs').
Proof.
  intros Hne Hfit Habsent me fs'.
  assert (Hinit : __init__ name fields fs = (Return me, fs')).
  { unfold __init__. fold (path_of name). rewrite Habsent.
    rewrite DictWriter_writeheader_ok. by destruct fields. }
  assert (Hst : holds me [] fs').
  { split; cbn [headers db_name]; [done|done|done|].
    subst fs'. rewrite lookup_insert_eq. unfold store_text. cbn [flat_map].
    by rewrite app_nil_r. }
  split; [done|]. split; [apply endswith_path_of|]. split; [done|].
  by apply (find_all_holds me []).
Qed.

Lemma construct_fresh_store_witness :
  ["name"; "age"] ≠ []
  ∧ Forall fits_str ["name"; "age"]
  ∧ (∅ : filesystem) !! path_of "users" = None
  ∧ __init__ "users" ["name"; "age"] ∅ = (Return Example.users, Example.disk []).
Proof.
  assert (H1 : ["name"; "age"] ≠ []) by evaluate.
  assert (H2 : Forall fits_str ["name"; "age"]) by evaluate.
  assert (H3 : (∅ : filesystem) !! path_of "users" = None) by evaluate.
  split; [exact H1|]. split; [exact H2|]. split; [exact H3|].
  destruct (construct_fresh_store "users" ["name"; "age"] ∅ H1 H2 H3)
    as (-> & _). evaluate.
Defined.

(** X5. Construction raises its "provide fields" ValueError exactly when
    the file is absent and no field is given.  It never touches a file
    that exists -- whatever fields are given, they are not compared with
    the header in the file -- and a construction that raises creates
    nothing. *)
Theorem construct_existing_or_refused (name : string) (fields : list string)
    (fs : filesystem) :
  ((__init__ name fields fs).1 = Raise SchemaRequired
   ↔ fs !! path_of name = None ∧ fields = [])
  ∧ (is_Some (fs !! path_of name) ->
     __init__ name fields fs = (Return (Self (path_of name) fields), fs))
  ∧ (forall e, (__init__ name fields fs).1 = Raise e ->
     (__init__ name fields fs).2 = fs).
Proof.
  unfold __init__. fold (path_of name).
  destruct (fs !! path_of name) as [text|] eqn:Hfile.
  { split; [|split]; [|done|done]. split; [done|]. by intros [? _]. }
  split; [|split].
  - destruct fields as [|h t]; [done|].
    rewrite DictWriter_writeheader_ok. split; [done|]. by intros [_ ?].
  - by intros [].
  - intros e. destruct fields as [|h t]; [done|].
    by rewrite DictWriter_writeheader_ok.
Qed.

(** X6. [delete_db] returns whether the file was there; afterwards the
    file is absent and every other file is as before, a second
    [delete_db] returns [False] and changes nothing, and [find_all] raises
    FileNotFoundError. *)
Theorem delete_db_removes_the_file (me : self) (fs : filesystem) :
  let fs' := (delete_db me fs).2 in
  (delete_db me fs).1 = bool_decide (is_Some (fs !! db_name me))
  ∧ fs' !! db_name me = None
  ∧ (forall path, path ≠ db_name me -> fs' !! path = fs !! path)
  ∧ delete_db me fs' = (false, fs')
  ∧ find_all me fs' = (Raise FileNotFound, fs').
Proof.
  intros fs'.
  assert (Hgone : fs' !! db_name me = None).
  { subst fs'. unfold delete_db.
    destruct (fs !! db_name me) eqn:E; [apply lookup_delete_eq|done]. }
  split; [|split; [done|split; [|split]]].
  - unfold delete_db. by destruct (fs !! db_name me).
  - intros path Hpath. subst fs'. unfold delete_db.
    destruct (fs !! db_name me); [|done]. by apply lookup_delete_ne.
  - unfold delete_db. by rewrite Hgone.
  - unfold find_all, open_read. by rewrite Hgone.
Qed.

(** ** A store whose file is missing *)

(** X7. When the file of the store is absent, [find_all], [find],
    [find_where], [update], [delete] and [delete_where] raise
    FileNotFoundError (the argument checks of [find], [find_where] and
    [delete_where] passed) and none of them creates the file. *)
Theorem missing_file_raises (me : self) (fs : filesystem) (key : string)
    (value : pyval) (condition : pyobj) (new_data : pydict) :
  fs !! db_name me = None ->
  find_all me fs = (Raise FileNotFound, fs)
  ∧ (key ≠ "" -> truthy value = true ->
     find me key value fs = (Raise FileNotFound, fs))
  ∧ (condition ≠ Value PyNone ->
     find_where me condition fs = (Raise FileNotFound, fs)
     ∧ delete_where me condition fs = (Raise FileNotFound, fs))
  ∧ update me key value new_data fs = (Raise FileNotFound, fs)
  ∧ delete me key value fs = (Raise FileNotFound, fs).
Proof.
  intros Habsent.
  assert (Hopen : open_read (db_name me) fs = Raise FileNotFound).
  { unfold open_read. by rewrite Habsent. }
  split; [|split; [|split; [|split]]].
  - unfold find_all. by rewrite Hopen.
  - intros Hkey%String.eqb_neq Hvalue. unfold find. cbn [truthy].
    by rewrite Hkey, Hvalue, Hopen.
  - intros Hcond. unfold find_where, delete_where. rewrite Hopen.
    by destruct condition as [| |[]].
  - unfold update. by rewrite Hopen.
  - unfold delete. by rewrite Hopen.
Qed.

Lemma missing_file_raises_witness :
  (∅ : filesystem) !! "users.csv" = None
  ∧ update Example.users "name" (PyStr "ann") {[ "age" := PyStr "31" ]} ∅
    = (Raise FileNotFound, ∅).
Proof.
  assert (H : (∅ : filesystem) !! db_name Example.users = None) by evaluate.
  split; [exact H|].
  by destruct (missing_file_raises Example.users ∅ "name" (PyStr "ann")
                 (Dict ∅) {[ "age" := PyStr "31" ]} H)
    as (_ & _ & _ & -> & _).
Defined.

(** X8. [insert] does not need the file: when it is absent, inserting a
    record of the schema returns [True] and creates the file with the row
    of the record and no header row.  The row is then read as a header:
    [find_all] returns the empty list, not the record. *)
Theorem insert_without_file_writes_no_header (me : self) (fs : filesystem)
    (r : pydict) (fill_missing : bool) :
  headers me ≠ [] ->
  record_of (headers me) r ->
  fs !! db_name me = None ->
  let fs' := <[db_name me :=
                 string_of_list_ascii (writerow (row_cells (headers me) r))]> fs in
  insert me (Dict r) fill_missing fs = (Return true, fs')
  ∧ find_all me fs' = (Return [], fs').
Proof.
  intros Hne Hr Habsent fs'. split.
  - unfold insert.
    rewrite bool_decide_eq_false_2 by by eapply record_of_nonempty.
    rewrite fill_or_check_record by done.
    rewrite bool_decide_eq_true_2 by by apply no_extra_keys, record_of_dom.
    change (RowDict r None) with (as_row r).
    rewrite DictWriter_writerow_ok by by apply record_of_dom.
    by rewrite Habsent.
  - unfold find_all, open_read. subst fs'. rewrite lookup_insert_eq.
    cbn [mbind result_bind]. unfold DictReader, readlines.
    rewrite list_ascii_of_string_of_list_ascii, writerow_spec.
    replace (record_text (map cell_text (row_cells (headers me) r))
               ++ lineterminator)
      with (records_text [map cell_text (row_cells (headers me) r)])
      by (cbn [records_text flat_map]; apply app_nil_r).
    rewrite reader_records_text.
    + done.
    + apply Forall_singleton. by apply readable_cells.
Qed.

Lemma insert_without_file_writes_no_header_witness :
  headers Example.users ≠ []
  ∧ record_of (headers Example.users) Example.ann
  ∧ (∅ : filesystem) !! "users.csv" = None
  ∧ find_all Example.users (insert Example.users (Dict Example.ann) false ∅).2
    = (Return [], (insert Example.users (Dict Example.ann) false ∅).2).
Proof.
  assert (H1 : headers Example.users ≠ []) by evaluate.
  assert (H2 : record_of (headers Example.users) Example.ann) by (split; evaluate).
  assert (H3 : (∅ : filesystem) !! db_name Example.users = None) by evaluate.
  split; [exact H1|]. split; [exact H2|]. split; [exact H3|].
  destruct (insert_without_file_writes_no_header Example.users ∅ Example.ann
              false H1 H2 H3) as [-> Hfind].
  exact Hfind.
Defined.

(** ** Conditions *)

Lemma for_each_keep (f : rowdict -> result pyval) (p : pydict -> pyval)
    (recs : list pydict) :
  Forall (fun d => f (as_row d) = Return (p d)) recs ->
  forall acc,
    for_each (fun acc row =>
                keep ← f row;
                Return (if truthy keep then acc ++ [row] else acc))
             acc (map as_row recs)
    = Return (acc ++ map as_row (List.filter (fun d => truthy (p d)) recs)).
Proof.
  induction 1 as [|d recs Hd Hrecs IH]; intros acc.
  { simpl. by rewrite app_nil_r. }
  cbn [map for_each]. rewrite Hd. cbn [mbind result_bind]. rewrite IH.
  cbn [List.filter]. destruct (truthy (p d)); [|done].
  by rewrite <- app_assoc.
Qed.

(** X9. On a store that holds [recs], [find_where] with a function
    returns, in file order, the records on which the function returns a
    truthy value; the file system is not changed. *)
Theorem find_where_by_function (me : self) (recs : list pydict)
    (fs : filesystem) (f : rowdict -> result pyval) (p : pydict -> pyval) :
  holds me recs fs ->
  Forall (fun d => f (as_row d) = Return (p d)) recs ->
  find_where me (Callable f) fs
  = (Return (map as_row (List.filter (fun d => truthy (p d)) recs)), fs).
Proof.
  intros [Hopen Hread]%read_holds Hf. unfold find_where.
  rewrite Hopen. cbn [mbind result_bind]. unfold for_in. rewrite Hread.
  cbn [fst snd]. by rewrite (for_each_keep f p).
Qed.

Lemma find_where_by_function_witness :
  holds Example.users [Example.ann; Example.bob]
    (Example.disk [Example.ann; Example.bob])
  ∧ find_where Example.users
      (Callable (fun row => Return (PyInt (if py_eq (get (items row) "age") (PyStr "40")
                                           then 1 else 0))))
      (Example.disk [Example.ann; Example.bob])
    = (Return [as_row Example.bob], Example.disk [Example.ann; Example.bob]).
Proof.
  assert (H : holds Example.users [Example.ann; Example.bob]
                (Example.disk [Example.ann; Example.bob])).
  { split; evaluate. }
  split; [exact H|].
  rewrite (find_where_by_function Example.users _ _ _
             (fun d => PyInt (if py_eq (get d "age") (PyStr "40") then 1 else 0)) H).
  - evaluate.
  - repeat constructor.
Defined.

(** X10. An exception raised by a condition function is passed on as it
    is, by [find_where] and by [delete_where]; [delete_where] then writes
    nothing, also when the function had already picked rows to delete. *)
Theorem condition_exception_propagates (me : self)
    (before after : list pydict) (d : pydict) (fs : filesystem)
    (f : rowdict -> result pyval) (e : exn) :
  holds me (before ++ d :: after) fs ->
  Forall (fun d' => exists v, f (as_row d') = Return v) before ->
  f (as_row d) = Raise e ->
  find_where me (Callable f) fs = (Raise e, fs)
  ∧ delete_where me (Callable f) fs = (Raise e, fs).
Proof.
  intros [Hopen Hread]%read_holds Hbefore Hd.
  assert (Hfind : forall acc,
    for_each (fun acc row =>
                keep ← f row;
                Return (if truthy keep then acc ++ [row] else acc))
             acc (map as_row (before ++ d :: after)) = Raise e).
  { clear -Hbefore Hd. induction Hbefore as [|d' l [v Hv] Hl IH]; intros acc.
    - cbn [app map for_each]. by rewrite Hd.
    - cbn [app map for_each]. rewrite Hv. cbn [mbind result_bind]. apply IH. }
  assert (Hdel : forall acc,
    for_each (drop_matching (fun row => _match me row (Callable f)))
             acc (map as_row (before ++ d :: after)) = Raise e).
  { clear -Hbefore Hd. induction Hbefore as [|d' l [v Hv] Hl IH]; intros acc.
    - cbn [app map for_each].
      assert (drop_matching (fun row => _match me row (Callable f)) acc (as_row d)
              = Raise e) as ->; [|done].
      unfold drop_matching, _match. by rewrite Hd.
    - cbn [app map for_each].
      rewrite (drop_matching_step _ acc (as_row d') (truthy v))
        by (unfold _match; by rewrite Hv).
      cbn [mbind result_bind]. apply IH. }
  split.
  - unfold find_where. rewrite Hopen. cbn [mbind result_bind].
    unfold for_in. rewrite Hread. cbn [fst snd]. by rewrite Hfind.
  - unfold delete_where. rewrite Hopen. cbn [mbind result_bind].
    unfold for_in. rewrite Hread. cbn [fst snd]. by rewrite Hdel.
Qed.

Lemma condition_exception_propagates_witness :
  holds Example.users ([Example.ann] ++ Example.bob :: [])
    (Example.disk [Example.ann; Example.bob])
  ∧ delete_where Example.users
      (Callable (fun row => if py_eq (get (items row) "name") (PyStr "ann")
                            then Return (PyInt 1) else Raise (Raised "KeyError")))
      (Example.disk [Example.ann; Example.bob])
    = (Raise (Raised "KeyError"), Example.disk [Example.ann; Example.bob]).
Proof.
  assert (H : holds Example.users ([Example.ann] ++ Example.bob :: [])
                (Example.disk [Example.ann; Example.bob])).
  { split; evaluate. }
  split; [exact H|].
  destruct (condition_exception_propagates Example.users [Example.ann] []
              Example.bob _
              (fun row => if py_eq (get (items row) "name") (PyStr "ann")
                          then Return (PyInt 1) else Raise (Raised "KeyError"))
              (Raised "KeyError") H) as [_ Hdel].
  - repeat constructor. by exists (PyInt 1).
  - evaluate.
  - exact Hdel.
Defined.

(** A record has a condition's value under each of its keys exactly when
    the condition is a part of the record. *)
Lemma all_equal_submap hs (d condition : pydict) :
  record_of hs d ->
  dom condition ⊆ list_to_set hs ->
  all_equal (as_row d) condition = bool_decide (condition ⊆ d).
Proof.
  intros Hd Hsub. apply Bool.eq_iff_eq_true.
  rewrite (all_equal_stored hs) by done. rewrite bool_decide_eq_true.
  rewrite map_subseteq_spec. done.
Qed.

Lemma filter_ext_Forall {A} (p q : A -> bool) (l : list A) :
  Forall (fun a => p a = q a) l -> List.filter p l = List.filter q l.
Proof.
  induction 1 as [|a l Ha Hl IH]; [done|]. simpl. by rewrite Ha, IH.
Qed.

Lemma existsb_ext_Forall {A} (p q : A -> bool) (l : list A) :
  Forall (fun a => p a = q a) l -> existsb p l = existsb q l.
Proof.
  induction 1 as [|a l Ha Hl IH]; [done|]. simpl. by rewrite Ha, IH.
Qed.

(** X11. On a store that holds [recs], [find_where] with a dictionary
    raises the "empty" ValueError for the empty dictionary and the
    "invalid key" ValueError for one with a key outside the schema;
    otherwise it returns, in file order, the records that have every
    entry of the dictionary.  The file system is not changed. *)
Theorem find_where_by_map (me : self) (recs : list pydict) (fs : filesystem)
    (condition : pydict) :
  holds me recs fs ->
  find_where me (Dict condition) fs
  = (if bool_decide (condition = ∅) then Raise ConditionEmpty
     else if bool_decide (dom condition ⊆ list_to_set (headers me))
     then Return (map as_row
                    (List.filter (fun d => bool_decide (condition ⊆ d)) recs))
     else Raise ConditionKey,
     fs).
Proof.
  intros Hst. rewrite (find_where_dict me recs) by done.
  repeat case_bool_decide; try done. do 3 f_equal.
  apply filter_ext_Forall.
  eapply Forall_impl; [apply (holds_records _ _ _ Hst)|].
  intros d Hd. by apply (all_equal_submap (headers me)).
Qed.

Lemma find_where_by_map_witness :
  holds Example.users [Example.ann; Example.bob]
    (Example.disk [Example.ann; Example.bob])
  ∧ find_where Example.users (Dict {[ "age" := PyStr "30" ]})
      (Example.disk [Example.ann; Example.bob])
    = (Return [as_row Example.ann], Example.disk [Example.ann; Example.bob]).
Proof.
  assert (H : holds Example.users [Example.ann; Example.bob]
                (Example.disk [Example.ann; Example.bob])).
  { split; evaluate. }
  split; [exact H|].
  rewrite (find_where_by_map Example.users _ _ {[ "age" := PyStr "30" ]} H).
  evaluate.
Defined.

(** ** Deleting *)

Lemma filter_none_hit {A} (p : A -> bool) (l : list A) :
  existsb p l = false -> List.filter (fun a => negb (p a)) l = l.
Proof.
  induction l as [|a l IH]; [done|]. simpl.
  intros [Ha Hl]%orb_false_elim. by rewrite Ha, IH.
Qed.

Lemma filter_hit_of_kept {A} (p : A -> bool) (l : list A) :
  List.filter p (List.filter (fun a => negb (p a)) l) = [].
Proof.
  induction l as [|a l IH]; [done|]. simpl.
  destruct (p a) eqn:Ha; simpl; [done|]. by rewrite Ha.
Qed.

(** What a delete operation that found its rows leaves: the records that
    did not match, held by the store. *)
Lemma holds_after_delete (me : self) (recs : list pydict) (fs : filesystem)
    (m : pydict -> bool) :
  holds me recs fs ->
  holds me (List.filter (fun d => negb (m d)) recs)
    (if existsb m recs
     then <[db_name me := store_text (headers me)
              (List.filter (fun d => negb (m d)) recs)]> fs
     else fs).
Proof.
  intros Hst. destruct (existsb m recs) eqn:Hhit.
  - apply (holds_write me recs); [done|].
    apply Forall_filter_bool, (holds_records _ _ _ Hst).
  - by rewrite filter_none_hit.
Qed.

(** X12. On a store that holds [recs], [delete(key, value)] returns
    whether some record has [value] under [key]; afterwards the store
    holds the other records, unchanged and in their order, and those are
    what [find_all] returns. *)
Theorem delete_removes_matching_records (me : self) (recs : list pydict)
    (fs : filesystem) (key : string) (value : pyval) :
  holds me recs fs ->
  let kept := List.filter (fun d => negb (py_eq (get d key) value)) recs in
  let fs' := (delete me key value fs).2 in
  (delete me key value fs).1
  = Return (existsb (fun d => py_eq (get d key) value) recs)
  ∧ holds me kept fs'
  ∧ find_all me fs' = (Return (map as_row kept), fs').
Proof.
  intros Hst kept fs'. subst fs'. rewrite (delete_holds me recs) by done.
  cbn [fst snd].
  assert (Hst' := holds_after_delete me recs fs (field_is key value) Hst).
  split; [done|]. split; [done|]. by apply find_all_holds.
Qed.

Lemma delete_removes_matching_records_witness :
  holds Example.users [Example.ann; Example.bob]
    (Example.disk [Example.ann; Example.bob])
  ∧ delete Example.users "name" (PyStr "ann")
      (Example.disk [Example.ann; Example.bob])
    = (Return true, Example.disk [Example.bob]).
Proof.
  assert (H : holds Example.users [Example.ann; Example.bob]
                (Example.disk [Example.ann; Example.bob])).
  { split; evaluate. }
  split; [exact H|].
  destruct (delete_removes_matching_records Example.users _ _
              "name" (PyStr "ann") H) as (Hres & _).
  rewrite (surjective_pairing (delete _ _ _ _)), Hres. evaluate.
Defined.



(** X14. On a store that holds [recs], [delete_where] with a non-empty
    dictionary whose keys are fields of the schema returns whether some
    record has every entry of the dictionary; afterwards the store holds
    the records that lack one, in their order. *)
Theorem delete_where_by_map (me : self) (recs : list pydict)
    (fs : filesystem) (condition : pydict) :
  holds me recs fs ->
  condition ≠ ∅ ->
  dom condition ⊆ list_to_set (headers me) ->
  let kept := List.filter (fun d => negb (bool_decide (condition ⊆ d))) recs in
  let fs' := (delete_where me (Dict condition) fs).2 in
  (delete_where me (Dict condition) fs).1
  = Return (existsb (fun d => bool_decide (condition ⊆ d)) recs)
  ∧ holds me kept fs'
  ∧ find_all me fs' = (Return (map as_row kept), fs').
Proof.
  intros Hst Hne Hsub kept fs'. subst fs'.
  rewrite (delete_where_holds me recs fs _
             (fun d => bool_decide (condition ⊆ d))); [|done|done|].
  2:{ eapply Forall_impl; [apply (holds_records _ _ _ Hst)|].
      intros d Hd. rewrite _match_dict by done.
      by rewrite (all_equal_submap (headers me)). }
  cbn [fst snd].
  assert (Hst' := holds_after_delete me recs fs
                    (fun d => bool_decide (condition ⊆ d)) Hst).
  split; [done|]. split; [done|]. by apply find_all_holds.
Qed.

Lemma delete_where_by_map_witness :
  holds Example.users [Example.ann; Example.bob]
    (Example.disk [Example.ann; Example.bob])
  ∧ delete_where Example.users (Dict {[ "age" := PyStr "40" ]})
      (Example.disk [Example.ann; Example.bob])
    = (Return true, Example.disk [Example.ann]).
Proof.
  assert (H : holds Example.users [Example.ann; Example.bob]
                (Example.disk [Example.ann; Example.bob])).
  { split; evaluate. }
  split; [exact H|].
  destruct (delete_where_by_map Example.users _ _ {[ "age" := PyStr "40" ]} H)
    as (Hres & _); [evaluate|evaluate|].
  rewrite (surjective_pairing (delete_where _ _ _)), Hres. evaluate.
Defined.

(** X15. After [delete(key, value)] on a store that holds records,
    [find(key, value)] finds nothing: it returns the empty list. *)
Theorem delete_then_find_is_empty (me : self) (recs : list pydict)
    (fs : filesystem) (key : string) (value : pyval) :
  holds me recs fs ->
  key ≠ "" ->
  truthy value = true ->
  (find me key value (delete me key value fs).2).1 = Return [].
Proof.
  intros Hst Hkey Hvalue.
  assert (Hst' := holds_after_delete me recs fs (field_is key value) Hst).
  rewrite (delete_holds me recs) by done. cbn [snd].
  rewrite (find_holds me _ _ key value Hst') by done. cbn [fst].
  by rewrite filter_hit_of_kept.
Qed.

Lemma delete_then_find_is_empty_witness :
  holds Example.users [Example.ann; Example.bob]
    (Example.disk [Example.ann; Example.bob])
  ∧ (find Example.users "name" (PyStr "ann")
       (delete Example.users "name" (PyStr "ann")
          (Example.disk [Example.ann; Example.bob])).2).1
    = Return [].
Proof.
  assert (H : holds Example.users [Example.ann; Example.bob]
                (Example.disk [Example.ann; Example.bob])).
  { split; evaluate. }
  split; [exact H|].
  apply (delete_then_find_is_empty Example.users _ _ "name" (PyStr "ann") H);
    evaluate.
Defined.

(** ** Arguments the operations do not check *)

(** X16. A condition that is neither [None], a function nor a dictionary
    makes [find_where] raise its TypeError on any store that holds
    records or none.  [delete_where] raises its TypeError only when the
    store holds a record; on a store that holds none it returns [False].
    Neither writes anything. *)
Theorem condition_of_another_type (me : self) (recs : list pydict)
    (fs : filesystem) (v : pyval) :
  holds me recs fs ->
  v ≠ PyNone ->
  find_where me (Value v) fs = (Raise ConditionType, fs)
  ∧ class_of ConditionType = TypeError
  ∧ (recs ≠ [] -> delete_where me (Value v) fs = (Raise ConditionType, fs))
  ∧ (recs = [] -> delete_where me (Value v) fs = (Return false, fs)).
Proof.
  intros [Hopen Hread]%read_holds Hv.
  split; [|split; [done|split]].
  - unfold find_where. rewrite Hopen. by destruct v.
  - intros Hne. unfold delete_where. rewrite Hopen. cbn [mbind result_bind].
    unfold for_in. rewrite Hread. destruct recs as [|d recs]; [done|].
    by destruct v.
  - intros ->. unfold delete_where. rewrite Hopen. cbn [mbind result_bind].
    unfold for_in. rewrite Hread. by destruct v.
Qed.

Lemma condition_of_another_type_witness :
  holds Example.users [] (Example.disk [])
  ∧ (PyStr "name" ≠ PyNone)
  ∧ find_where Example.users (Value (PyStr "name")) (Example.disk [])
    = (Raise ConditionType, Example.disk [])
  ∧ delete_where Example.users (Value (PyStr "name")) (Example.disk [])
    = (Return false, Example.disk []).
Proof.
  assert (H : holds Example.users [] (Example.disk [])).
  { split; evaluate. }
  assert (Hv : PyStr "name" ≠ PyNone) by evaluate.
  split; [exact H|]. split; [exact Hv|].
  destruct (condition_of_another_type Example.users _ _ (PyStr "name") H Hv)
    as (Hfind & _ & _ & Hdel).
  split; [exact Hfind|]. by apply Hdel.
Defined.

Lemma update_no_hit (me : self) (recs : list pydict) (fs : filesystem)
    (key : string) (value : pyval) (new_data : pydict) :
  holds me recs fs ->
  existsb (field_is key value) recs = false ->
  update me key value new_data fs = (Return false, fs).
Proof.
  intros Hst Hhit. unfold update.
  rewrite (update_read me recs) by done. by rewrite Hhit.
Qed.

Lemma existsb_none {A} (p : A -> bool) (l : list A) :
  Forall (fun a => p a = false) l -> existsb p l = false.
Proof. induction 1 as [|a l Ha Hl IH]; [done|]. simpl. by rewrite Ha. Qed.

Lemma filter_nothing {A} (p : A -> bool) (l : list A) :
  Forall (fun a => p a = false) l -> List.filter p l = [].
Proof. induction 1 as [|a l Ha Hl IH]; [done|]. simpl. by rewrite Ha. Qed.

(** X17. None of [find], [update] and [delete] checks [key] against the
    schema or [value] against the type of what is stored.  On a store
    that holds [recs], an integer value, or any value but [None] under a
    key that is no field of the schema, matches no record: [find] returns
    the empty list rather than raising, and [update] and [delete] return
    [False] and write nothing. *)
Theorem unknown_key_or_integer_matches_nothing (me : self)
    (recs : list pydict) (fs : filesystem) (key : string) (value : pyval)
    (new_data : pydict) :
  holds me recs fs ->
  (exists n, value = PyInt n) ∨ ((key ∉ headers me) ∧ value ≠ PyNone) ->
  (key ≠ "" -> truthy value = true -> find me key value fs = (Return [], fs))
  ∧ update me key value new_data fs = (Return false, fs)
  ∧ delete me key value fs = (Return false, fs).
Proof.
  intros Hst Hcase.
  assert (Hnone : Forall (fun d => field_is key value d = false) recs).
  { eapply Forall_impl; [apply (holds_records _ _ _ Hst)|].
    intros d Hd. unfold field_is. destruct Hcase as [[n ->]|[Hkey Hvalue]].
    - unfold get. destruct (d !! key) as [v|] eqn:Hv; [|done].
      destruct Hd as [_ Htext]. specialize (Htext key v Hv). by destruct v.
    - rewrite (get_outside (headers me)) by done. by destruct value. }
  split; [|split].
  - intros Hkey Hvalue. rewrite (find_holds me recs) by done.
    by rewrite filter_nothing.
  - apply (update_no_hit me recs); [done|]. by apply existsb_none.
  - rewrite (delete_holds me recs) by done. by rewrite existsb_none.
Qed.

Lemma unknown_key_or_integer_matches_nothing_witness :
  holds Example.users [Example.ann; Example.bob]
    (Example.disk [Example.ann; Example.bob])
  ∧ find Example.users "age" (PyInt 30) (Example.disk [Example.ann; Example.bob])
    = (Return [], Example.disk [Example.ann; Example.bob])
  ∧ delete Example.users "nmae" (PyStr "ann")
      (Example.disk [Example.ann; Example.bob])
    = (Return false, Example.disk [Example.ann; Example.bob]).
Proof.
  assert (H : holds Example.users [Example.ann; Example.bob]
                (Example.disk [Example.ann; Example.bob])).
  { split; evaluate. }
  split; [exact H|]. split.
  - destruct (unknown_key_or_integer_matches_nothing Example.users _ _
                "age" (PyInt 30) ∅ H) as (Hfind & _).
    + left. by exists 30%Z.
    + apply Hfind; evaluate.
  - destruct (unknown_key_or_integer_matches_nothing Example.users _ _
                "nmae" (PyStr "ann") ∅ H) as (_ & _ & Hdel).
    + right. split; evaluate.
    + exact Hdel.
Defined.

(** X18. [update] does not check [key] either.  On a store that holds
    [recs], with [key] no field of the schema, every record has [None]
    under [key], so [update(key, None, new_data)] changes them all: it
    returns whether a record was stored, and afterwards every record has
    the values of [new_data] in the fields it names. *)
Theorem update_unknown_key_none_changes_all (me : self) (recs : list pydict)
    (fs : filesystem) (key : string) (new_data : pydict) :
  holds me recs fs ->
  key ∉ headers me ->
  dom new_data ⊆ list_to_set (headers me) ->
  map_Forall (fun _ v => text_value v) new_data ->
  let fs' := (update me key PyNone new_data fs).2 in
  (update me key PyNone new_data fs).1 = Return (negb (bool_decide (recs = [])))
  ∧ holds me (map (fun d => new_data ∪ d) recs) fs'
  ∧ find_all me fs' = (Return (map as_row (map (fun d => new_data ∪ d) recs)), fs').
Proof.
  intros Hst Hkey Hdom Htext fs'.
  assert (Hall : Forall (fun d => field_is key PyNone d = true) recs).
  { eapply Forall_impl; [apply (holds_records _ _ _ Hst)|].
    intros d Hd. unfold field_is. by rewrite (get_outside (headers me)). }
  assert (Hhit : existsb (field_is key PyNone) recs = negb (bool_decide (recs = []))).
  { destruct Hall as [|d recs' Hd _]; [done|]. simpl. by rewrite Hd. }
  assert (Hmap : map (modify key PyNone new_data) recs
                 = map (fun d => new_data ∪ d) recs).
  { clear -Hall. induction Hall as [|d recs Hd _ IH]; [done|].
    simpl. unfold modify at 1. by rewrite Hd, IH. }
  assert (Hst' : holds me (map (fun d => new_data ∪ d) recs) fs').
  { subst fs'. rewrite (update_holds me recs) by done. cbn [snd].
    rewrite Hhit, Hmap. destruct recs as [|d0 recs0]; [done|].
    apply (holds_write me (d0 :: recs0)); [done|].
    apply Forall_map. eapply Forall_impl; [apply (holds_records _ _ _ Hst)|].
    intros d [Hd Hv]. split.
    - rewrite dom_union_L, Hd. by apply subseteq_union_1_L.
    - by apply map_Forall_union_2. }
  split; [|split; [done|by apply find_all_holds]].
  rewrite (update_holds me recs) by done. cbn [fst]. by rewrite Hhit.
Qed.

Lemma update_unknown_key_none_changes_all_witness :
  holds Example.users [Example.ann; Example.bob]
    (Example.disk [Example.ann; Example.bob])
  ∧ ("city" ∉ ["name"; "age"])
  ∧ update Example.users "city" PyNone {[ "age" := PyStr "0" ]}
      (Example.disk [Example.ann; Example.bob])
    = (Return true,
       Example.disk [ <[ "age" := PyStr "0" ]> Example.ann;
                      <[ "age" := PyStr "0" ]> Example.bob ]).
Proof.
  assert (H : holds Example.users [Example.ann; Example.bob]
                (Example.disk [Example.ann; Example.bob])).
  { split; evaluate. }
  assert (Hk : "city" ∉ headers Example.users) by evaluate.
  split; [exact H|]. split; [exact Hk|].
  destruct (update_unknown_key_none_changes_all Example.users _ _ "city"
              {[ "age" := PyStr "0" ]} H Hk) as (Hres & _);
    [evaluate|evaluate|].
  rewrite (surjective_pairing (update _ _ _ _ _)), Hres. evaluate.
Defined.

(** ** Other files *)

Lemma rewrite_other_files (me : self) (rows : list rowdict) (fs : filesystem)
    (path : string) :
  path ≠ db_name me -> (rewrite me rows fs).2 !! path = fs !! path.
Proof.
  intros Hpath. unfold rewrite.
  destruct (DictWriter_writeheader (headers me)) as [e|header]; cbn [snd].
  - by rewrite lookup_insert_ne.
  - destruct (DictWriter_writerows _ _ _) as [out e]. cbn [snd].
    by rewrite lookup_insert_ne.
Qed.

Lemma finish_other_files (me : self) (read : result (bool * list rowdict))
    (fs : filesystem) (path : string) :
  path ≠ db_name me -> (finish me read fs).2 !! path = fs !! path.
Proof.
  intros Hpath. unfold finish. destruct read as [e|[[] rows]]; [done| |done].
  pose proof (rewrite_other_files me rows fs path Hpath) as H.
  by destruct (rewrite me rows fs).
Qed.

(** X19. No operation of a store reads or writes a file other than its
    own: whatever the arguments and whatever the outcome, every other
    path of the file system holds afterwards what it held before; and the
    lookups [find_all], [find] and [find_where] change no file at all. *)
Theorem other_files_untouched (me : self) (fs : filesystem) (path : string)
    (row condition : pyobj) (fill_missing : bool) (key : string)
    (value : pyval) (new_data : pydict) :
  path ≠ db_name me ->
  (insert me row fill_missing fs).2 !! path = fs !! path
  ∧ (update me key value new_data fs).2 !! path = fs !! path
  ∧ (delete me key value fs).2 !! path = fs !! path
  ∧ (delete_where me condition fs).2 !! path = fs !! path
  ∧ (delete_db me fs).2 !! path = fs !! path
  ∧ (find_all me fs).2 = fs
  ∧ (find me key value fs).2 = fs
  ∧ (find_where me condition fs).2 = fs.
Proof.
  intros Hpath. repeat split.
  - unfold insert. destruct row as [d| |]; [|done|done].
    case_bool_decide; [done|].
    destruct (fill_or_check me d fill_missing) as [e|d']; [done|].
    case_bool_decide; [|done].
    destruct (DictWriter_writerow _ _); cbn [snd]; by rewrite lookup_insert_ne.
  - by apply finish_other_files.
  - by apply finish_other_files.
  - unfold delete_where.
    destruct condition as [| |[]]; try done; by apply finish_other_files.
  - unfold delete_db. destruct (fs !! db_name me); [|done].
    by apply lookup_delete_ne.
  - unfold find. by destruct (_ || _).
  - unfold find_where. by destruct condition as [| |[]].
Qed.

Lemma other_files_untouched_witness :
  "notes.txt" ≠ "users.csv"
  ∧ (delete Example.users "name" (PyStr "ann")
       (<["notes.txt" := "hello"]> (Example.disk [Example.ann]))).2 !! "notes.txt"
    = Some "hello".
Proof.
  assert (H : "notes.txt" ≠ db_name Example.users) by evaluate.
  split; [exact H|].
  destruct (other_files_untouched Example.users
              (<["notes.txt" := "hello"]> (Example.disk [Example.ann]))
              "notes.txt" (Dict ∅) (Dict ∅) false "name" (PyStr "ann") ∅ H)
    as (_ & _ & -> & _).
  evaluate.
Defined.
